(** * Concert: certificate issuance and renewal (certs.go)

    A shallow embedding of [certs.go] and the properties of its domain
    validator, its certificate store and its issuance and renewal
    orchestrators.

    Go strings are byte strings: they are embedded as [string], whose
    elements are the 8-bit [ascii] values, and [len] is [String.length]. *)

From Stdlib Require Import ZArith QArith Qpower Qround Lqa Lia Bool List Ascii String.
From Stdlib Require Import Floats.SpecFloat.
From stdpp Require Import gmap strings pretty.

Local Open Scope Z_scope.

(** ** Go's [strings] package, as far as certs.go uses it *)

Module strings.

Local Open Scope char_scope.

(** [unicode.IsSpace] on the UTF-8 encoding.  The White_Space code points
    are U+0009..U+000D, U+0020, U+0085, U+00A0, U+1680, U+2000..U+200A,
    U+2028, U+2029, U+202F, U+205F and U+3000.  Go's decoder accepts only
    the shortest encoding of a code point, so a rune is a space exactly
    when its bytes are one of the sequences below. *)
Definition isSpace1 (a : ascii) : bool :=
  let n := nat_of_ascii a in
  ((9 <=? n) && (n <=? 13))%nat || (n =? 32)%nat.

Definition isSpace2 (a b : ascii) : bool :=
  let m := nat_of_ascii a in
  let n := nat_of_ascii b in
  (m =? 194)%nat && ((n =? 133)%nat || (n =? 160)%nat).

Definition isSpace3 (a b c : ascii) : bool :=
  let l := nat_of_ascii a in
  let m := nat_of_ascii b in
  let n := nat_of_ascii c in
  ((l =? 225) && (m =? 154) && (n =? 128))%nat
  || ((l =? 226) && (m =? 128)
      && (((128 <=? n) && (n <=? 138)) || (n =? 168) || (n =? 169) || (n =? 175)))%nat
  || ((l =? 226) && (m =? 129) && (n =? 159))%nat
  || ((l =? 227) && (m =? 128) && (n =? 128))%nat.

(** [TrimLeftFunc s unicode.IsSpace]: drop leading runes while they are
    spaces. *)
Fixpoint TrimLeftSpace (s : string) : string :=
  match s with
  | EmptyString => EmptyString
  | String a s1 =>
      if isSpace1 a then TrimLeftSpace s1 else
      match s1 with
      | EmptyString => s
      | String b s2 =>
          if isSpace2 a b then TrimLeftSpace s2 else
          match s2 with
          | EmptyString => s
          | String c s3 => if isSpace3 a b c then TrimLeftSpace s3 else s
          end
      end
  end.

Fixpoint revAcc (s acc : string) : string :=
  match s with
  | EmptyString => acc
  | String a s' => revAcc s' (String a acc)
  end.

Definition rev (s : string) : string := revAcc s EmptyString.

(** The same scan on the reversed string: the bytes of a rune arrive last
    byte first.  [utf8.DecodeLastRuneInString] steps back to the nearest
    start byte, which for the sequences above is their first byte. *)
Fixpoint TrimLeftSpaceRev (s : string) : string :=
  match s with
  | EmptyString => EmptyString
  | String a s1 =>
      if isSpace1 a then TrimLeftSpaceRev s1 else
      match s1 with
      | EmptyString => s
      | String b s2 =>
          if isSpace2 b a then TrimLeftSpaceRev s2 else
          match s2 with
          | EmptyString => s
          | String c s3 => if isSpace3 c b a then TrimLeftSpaceRev s3 else s
          end
      end
  end.

Definition TrimRightSpace (s : string) : string :=
  rev (TrimLeftSpaceRev (rev s)).

(** [strings.TrimSpace s = TrimFunc(s, unicode.IsSpace)
     = TrimRightFunc(TrimLeftFunc(s, f), f)]. *)
Definition TrimSpace (s : string) : string :=
  TrimRightSpace (TrimLeftSpace s).

Fixpoint IndexByte (s : string) (c : ascii) : bool :=
  match s with
  | EmptyString => false
  | String a s' => Ascii.eqb a c || IndexByte s' c
  end.

(** [strings.ContainsAny s chars] for a set [chars] of ASCII characters.
    Go compares runes; a byte below 128 is always a rune of its own, so
    for ASCII [chars] a rune of [s] is in [chars] exactly when a byte of
    [s] is. *)
Fixpoint ContainsAny (s chars : string) : bool :=
  match s with
  | EmptyString => false
  | String a s' => IndexByte chars a || ContainsAny s' chars
  end.

Fixpoint HasPrefix (s prefix : string) : bool :=
  match prefix, s with
  | EmptyString, _ => true
  | String p prefix', String a s' => Ascii.eqb a p && HasPrefix s' prefix'
  | String _ _, EmptyString => false
  end.

(** [genSplit s sep 0 (-1)] for a non-empty separator: cut at the leftmost
    occurrences of [sep], which do not overlap.  [skip] counts the bytes
    of the separator found last that are still to be passed over, [cur]
    holds the bytes of the current piece, last byte first. *)
Fixpoint genSplit (s sep : string) (skip : nat) (cur : string) : list string :=
  match s with
  | EmptyString => [rev cur]
  | String a s' =>
      match skip with
      | S k => genSplit s' sep k cur
      | O =>
          if HasPrefix s sep
          then rev cur :: genSplit s' sep (String.length sep - 1) EmptyString
          else genSplit s' sep O (String a cur)
      end
  end.

Definition Split (s sep : string) : list string := genSplit s sep O EmptyString.

End strings.

(** A slice expression [s[lo:hi]] on a string.  Go panics when the bounds
    are out of range: [None]. *)
Definition slice (s : string) (lo hi : Z) : option string :=
  if (0 <=? lo) && (lo <=? hi) && (hi <=? Z.of_nat (String.length s))
  then Some (substring (Z.to_nat lo) (Z.to_nat (hi - lo)) s)
  else None.

Definition len (s : string) : Z := Z.of_nat (String.length s).

(** ** The domain validator (certs.go, lines 45-78) *)

Definition dquote : string := String (ascii_of_nat 34) EmptyString.
Definition bslash : string := String (ascii_of_nat 92) EmptyString.

(** The second argument of [strings.ContainsAny] in [isValidDomain]: the
    backquote, then tilde ... vertical bar, a backslash, a double quote,
    and the characters from the apostrophe to the slash. *)
Definition forbiddenChars : string :=
  ("`~!@#$%^&" +:+ "*" +:+ "()+={}[]|" +:+ bslash +:+ dquote +:+ "';:><?/")%string.

(** [x == y] on two optional strings, either of which panicked. *)
Definition strEq (x : option string) (y : string) : option bool :=
  match x with
  | Some s => Some (String.eqb s y)
  | None => None
  end.

(** [a || b] with Go's short-circuit evaluation: [b] is evaluated, and can
    panic, only when [a] is false. *)
Definition orElse (a b : option bool) : option bool :=
  match a with
  | Some true => Some true
  | Some false => b
  | None => None
  end.

(** isValidDomain validates if input string is a valid domain name.
    [None] is a run-time panic. *)
Definition isValidDomain (host : string) : option bool :=
  let host := strings.TrimSpace host in
  if (len host =? 0) || (len host >? 255) then Some false else
  match orElse (strEq (slice host (len host - 1) (len host)) "-")
               (strEq (slice host 0 1) "-") with
  | None => None
  | Some true => Some false
  | Some false =>
  match orElse (strEq (slice host (len host - 1) (len host)) "_")
               (strEq (slice host 0 1) "_") with
  | None => None
  | Some true => Some false
  | Some false =>
  match orElse (strEq (slice host (len host - 1) (len host)) ".")
               (strEq (slice host 0 1) ".") with
  | None => None
  | Some true => Some false
  | Some false =>
  if strings.ContainsAny host forbiddenChars then Some false
  else Some true
  end end end.

(** isSubDomain - is domain a subdomain. *)
Definition isSubDomain (domain : string) : bool :=
  let domainParts := strings.Split domain "." in
  Z.of_nat (List.length domainParts) >? 2.


(** ** Go's [float64], as far as [Duration.Hours] and the day count need it

    A finite binary64 value is a rational; an operation returns the exact
    result rounded to the nearest value with a 53-bit significand, ties to
    even.  The exponent range is left out: the magnitudes that occur here
    lie between 2^-47 and 2^22. *)

Module float64.

Definition pow2 (k : Z) : Q := Qpower 2 k.

(** The exponent of [x > 0]: [2^(ilog2 x) <= x < 2^(ilog2 x + 1)]. *)
Definition ilog2 (x : Q) : Z :=
  let k := Z.log2 (Qnum x) - Z.log2 (Zpos (Qden x)) in
  if Qle_bool (pow2 k) x then k else k - 1.

Definition roundHalfEven (x : Q) : Z :=
  let f := Qfloor x in
  match Qcompare (x - inject_Z f) (1 # 2) with
  | Lt => f
  | Gt => f + 1
  | Eq => if Z.even f then f else f + 1
  end.

Definition roundPos (x : Q) : Q :=
  let u := pow2 (ilog2 x - 52) in
  Qred (inject_Z (roundHalfEven (x / u)) * u).

Definition round (x : Q) : Q :=
  match Qcompare x 0 with
  | Eq => 0%Q
  | Gt => roundPos x
  | Lt => Qopp (roundPos (Qopp x))
  end.

(** The conversion [float64(n)] of an integer. *)
Definition ofInt (n : Z) : Q := round (inject_Z n).

Definition add (x y : Q) : Q := round (x + y).
Definition div (x y : Q) : Q := round (x / y).

(** The conversion [int(x)]: the fraction is discarded (truncation toward
    zero). *)
Definition toInt (x : Q) : Z := Z.quot (Qnum x) (Zpos (Qden x)).

End float64.

(** ** Go's [time] package, as far as certs.go uses it *)

Module time.

(** A [Duration] is an int64 count of nanoseconds. *)
Definition Duration : Type := Z.

Definition minDuration : Duration := - 2 ^ 63.
Definition maxDuration : Duration := 2 ^ 63 - 1.

Definition Nanosecond : Duration := 1.
Definition Microsecond : Duration := 1000 * Nanosecond.
Definition Millisecond : Duration := 1000 * Microsecond.
Definition Second : Duration := 1000 * Millisecond.
Definition Minute : Duration := 60 * Second.
Definition Hour : Duration := 60 * Minute.

(** An instant, in nanoseconds since the zero value of [time.Time]
    (January 1, year 1, 00:00:00 UTC). *)
Definition Time : Type := Z.

Definition zero : Time := 0.

(** [t.Sub(u)]: the duration [t - u]; when it does not fit a [Duration]
    the minimum or the maximum duration is returned. *)
Definition Sub (t u : Time) : Duration :=
  let d := t - u in
  if d <? minDuration then minDuration
  else if maxDuration <? d then maxDuration
  else d.

(** [d.Hours()]:
    [hour := d / Hour; nsec := d % Hour;
     return float64(hour) + float64(nsec)/(60*60*1e9)]. *)
Definition Hours (d : Duration) : Q :=
  let hour := Z.quot d Hour in
  let nsec := Z.rem d Hour in
  float64.add (float64.ofInt hour)
    (float64.div (float64.ofInt nsec) (float64.ofInt (60 * 60 * 1000000000))).

End time.

(** The same day count on the Standard Library's specification of IEEE 754
    arithmetic, at binary64 (53 bits of precision, exponents up to 1024):
    a second reading of the source expression, against which the rounding
    above is checked on sample durations. *)

Module ieee754.

Definition prec : Z := 53.
Definition emax : Z := 1024.

Definition ofInt (n : Z) : spec_float := binary_normalize prec emax n 0 false.

Definition Hours (d : time.Duration) : spec_float :=
  let hour := Z.quot d time.Hour in
  let nsec := Z.rem d time.Hour in
  SFadd prec emax (ofInt hour)
    (SFdiv prec emax (ofInt nsec) (ofInt (60 * 60 * 1000000000))).

Definition days (d : time.Duration) : spec_float :=
  SFdiv prec emax (Hours d) (ofInt 24).

Definition toQ (f : spec_float) : Q :=
  match f with
  | S754_finite s m e =>
      let x := Qred (inject_Z (Zpos m) * Qpower 2 e) in
      if s then Qopp x else x
  | _ => 0%Q
  end.

(** Durations around the day boundaries at 45 and 46 days, around the
    hours from 1 to 200, and spread over the whole range of an int64. *)
Definition samples : list time.Duration :=
  map (fun k => 45 * 24 * time.Hour - 50 + Z.of_nat k) (seq 0 100)
  ++ map (fun k => 46 * 24 * time.Hour - 50 + Z.of_nat k) (seq 0 100)
  ++ map (fun k => Z.of_nat k * time.Hour - 1) (seq 1 200)
  ++ map (fun k => Z.of_nat k * 92233720368547758 - 2 ^ 63) (seq 0 201).

Definition agrees (d : time.Duration) : bool :=
  Qeq_bool (toQ (days d)) (float64.div (time.Hours d) (float64.ofInt 24)).

End ieee754.

(** ** Values of the collaborators *)

(** A Go [error] value that is not nil; [Error] is its message.  A nil
    error is [None]. *)
Record error : Type := errors_New { Error : string }.

#[global] Instance error_eq_dec : EqDecision error.
Proof. solve_decision. Defined.

(** [[]byte]. *)
Definition bytes : Type := string.

(** What [fmt] prints for [%s] of a [[]string] and of a [[]error], and for
    [%d] of an [int]. *)
Fixpoint joinWith (sep : string) (l : list string) : string :=
  match l with
  | [] => EmptyString
  | [x] => x
  | x :: l' => x +:+ sep +:+ joinWith sep l'
  end.

Definition fmt_strings (l : list string) : string :=
  "[" +:+ joinWith " " l +:+ "]".

Definition fmt_errors (l : list error) : string :=
  "[" +:+ joinWith " " (map Error l) +:+ "]".

Definition fmt_int (n : Z) : string := pretty n.

(** lego's [acme.CertificateResource]. *)
Record CertificateResource : Type := {
  Domain : string;
  CertURL : string;
  CertStableURL : string;
  AccountRef : string;
  PrivateKey : bytes;
  Certificate : bytes
}.

(** [acme.CertificateResource{}]. *)
Definition CertificateResource_zero : CertificateResource :=
  {| Domain := ""; CertURL := ""; CertStableURL := ""; AccountRef := "";
     PrivateKey := ""; Certificate := "" |}.

Definition set_Certificate (c : CertificateResource) (b : bytes) : CertificateResource :=
  {| Domain := Domain c; CertURL := CertURL c; CertStableURL := CertStableURL c;
     AccountRef := AccountRef c; PrivateKey := PrivateKey c; Certificate := b |}.

(** The objects of the collaborators, of which certs.go only passes the
    references on: an [*rsa.PrivateKey], an [*acme.Client], an
    [*acme.RegistrationResource]; lego's key types and challenges. *)
Inductive rsaPrivateKey : Type := rsaKey (bits : Z) (material : bytes).
Inductive acmeClient : Type := clientRef (id : nat).
Inductive RegistrationResource : Type := regRef (uri : string).
Inductive KeyType : Type := EC256 | EC384 | RSA2048 | RSA4096 | RSA8192.
Inductive Challenge : Type := HTTP01 | TLSSNI01 | DNS01.

(** Modelled from the spec: the account type [conUser], which is declared
    outside certs.go: an email address, a key pair, and the registration
    record that the CA assigns, absent until the account is registered. *)
Record conUser : Type := {
  Email : string;
  Registration : option RegistrationResource;
  key : rsaPrivateKey
}.

(** ** Calls to the collaborators

    [Ev X] is a call whose answer has type [X]; an answer [(v, err)] is
    Go's pair of results.  [rsa_GenerateKey] reads [rand.Reader].
    [user_setRegistration] is the assignment [user.Registration = reg],
    which the client sees through the pointer to the user it was built
    with.  [range_map] asks for the order in which a [range] statement
    visits the entries of a map. *)
Inductive Ev : Type -> Type :=
| ioutil_ReadFile (filename : string) : Ev (bytes * option error)
| ioutil_WriteFile (filename : string) (data : bytes) (perm : Z) : Ev (option error)
| os_Stat (name : string) : Ev (option error)
| time_Now : Ev time.Time
| acme_GetPEMCertExpiration (cert : bytes) : Ev (time.Time * option error)
| json_Unmarshal (data : bytes) : Ev (CertificateResource * option error)
| json_MarshalIndent (v : CertificateResource) (prefix indent : string) : Ev (bytes * option error)
| rsa_GenerateKey (bits : Z) : Ev (rsaPrivateKey * option error)
| acme_NewClient (caDirURL : string) (user : conUser) (keyType : KeyType) : Ev (acmeClient * option error)
| client_ExcludeChallenges (c : acmeClient) (challenges : list Challenge) : Ev unit
| client_Register (c : acmeClient) : Ev (RegistrationResource * option error)
| user_setRegistration (c : acmeClient) (reg : RegistrationResource) : Ev unit
| client_AgreeToTOS (c : acmeClient) : Ev (option error)
| client_ObtainCertificate (c : acmeClient) (domains : list string) (bundle : bool)
    (privKey : option rsaPrivateKey) : Ev (CertificateResource * gmap string error)
| client_RenewCertificate (c : acmeClient) (cert : CertificateResource) (bundle : bool) :
    Ev (CertificateResource * option error)
| range_map (m : gmap string error) : Ev (list (string * error)).

(** A call together with its answer. *)
Inductive Call : Type :=
| Called {X : Type} (e : Ev X) (x : X).

(** Programs that call the collaborators. *)
Inductive Prog (A : Type) : Type :=
| Ret (a : A)
| Vis {X : Type} (e : Ev X) (k : X -> Prog A).

Arguments Ret {A} a.
Arguments Vis {A X} e k.

Fixpoint bind {A B : Type} (p : Prog A) (f : A -> Prog B) : Prog B :=
  match p with
  | Ret a => f a
  | Vis e k => Vis e (fun x => bind (k x) f)
  end.

Definition call {X : Type} (e : Ev X) : Prog X := Vis e Ret.

#[global] Instance Prog_ret : MRet Prog := @Ret.
#[global] Instance Prog_bind : MBind Prog := fun A B f p => bind p f.

(** [if err != nil { return v, err }]. *)
Notation "'IfErr' err 'Return' v ;; q" :=
  (match err with Some e => Ret (v, Some e) | None => q end)
  (at level 10, err at level 9, v at level 9, q at level 200, only parsing).

(** ** The environment *)

Record File : Type := { content : bytes; mode : Z }.

(** The disk, the file-mode creation mask, the answers of the collaborators
    and what a failed write leaves of its target. *)
Record World : Type := {
  fs : gmap string File;
  umask : Z;
  answer : forall X : Type, Ev X -> X;
  leftover : string -> option File -> option File
}.

Definition set_fs (w : World) (m : gmap string File) : World :=
  {| fs := m; umask := umask w; answer := answer w; leftover := leftover w |}.

Definition errNotExist (name : string) : error :=
  errors_New ("open " +:+ name +:+ ": no such file or directory").

(** [ioutil.ReadFile]: the disk decides what a read finds; the world's
    [answer] may add a fault. *)
Definition readFile (w : World) (name : string) : bytes * option error :=
  match fs w !! name with
  | None => (EmptyString, Some (errNotExist name))
  | Some f =>
      match snd (answer w _ (ioutil_ReadFile name)) with
      | Some err => (EmptyString, Some err)
      | None => (content f, None)
      end
  end.

(** A successful [ioutil.WriteFile]: a new file is created with [perm] less
    the mask, an existing file is truncated and keeps its mode. *)
Definition written (w : World) (name : string) (data : bytes) (perm : Z) : World :=
  let m := match fs w !! name with
           | Some f => mode f
           | None => Z.land perm (Z.lnot (umask w))
           end in
  set_fs w (<[name := {| content := data; mode := m |}]> (fs w)).

(** [ioutil.WriteFile]: the world's [answer] says whether the write fails;
    a failed write leaves of its target what [leftover] says and touches no
    other file. *)
Definition writeFile (w : World) (name : string) (data : bytes) (perm : Z)
  : option error * World :=
  match answer w _ (ioutil_WriteFile name data perm) with
  | Some err => (Some err, set_fs w (partial_alter (leftover w name) name (fs w)))
  | None => (None, written w name data perm)
  end.

(** [os.Stat], of which certs.go keeps the error only. *)
Definition stat (w : World) (name : string) : option error :=
  match fs w !! name with
  | None => Some (errNotExist name)
  | Some _ => answer w _ (os_Stat name)
  end.

(** The order in which [range] visits a map: any order of its entries. *)
Definition rangeOrder (w : World) (m : gmap string error) : list (string * error) :=
  let l := answer w _ (range_map m) in
  if decide (l ≡ₚ map_to_list m) then l else map_to_list m.

(** The answer to a call and its effect on the world.  Every call that
    does not touch the disk is answered by the world's [answer]. *)
Definition handle {X : Type} (e : Ev X) (w : World) : X * World :=
  match e in Ev X return X * World with
  | ioutil_ReadFile name => (readFile w name, w)
  | ioutil_WriteFile name data perm => writeFile w name data perm
  | os_Stat name => (stat w name, w)
  | range_map m => (rangeOrder w m, w)
  | e' => (answer w _ e', w)
  end.

Fixpoint run {A : Type} (p : Prog A) (w : World) : A * World * list Call :=
  match p with
  | Ret a => (a, w, [])
  | Vis e k =>
      let xw := handle e w in
      let r := run (k (fst xw)) (snd xw) in
      (fst (fst r), snd (fst r), Called e (fst xw) :: snd r)
  end.

Definition result {A : Type} (r : A * World * list Call) : A := fst (fst r).
Definition final {A : Type} (r : A * World * list Call) : World := snd (fst r).
Definition trace {A : Type} (r : A * World * list Call) : list Call := snd r.

(** ** certs.go *)

Module filepath.

(** [filepath.Join dir name] for a directory and a file name that
    [Clean] leaves as they are: empty elements are ignored, the others
    are joined with the separator. *)
Definition Join (dir name : string) : string :=
  if String.eqb dir "" then name else dir +:+ "/" +:+ name.

End filepath.

Section Certs.

(** The CA endpoint [acmeServer], a constant declared outside certs.go. *)
Variable acmeServer : string.

(** renewDaysLimit - renewal is not initated if cert is valid with in
    this limit. *)
Definition renewDaysLimit : Z := 45.

(** load certs. *)
Definition loadCert (certsDir : string) : Prog (bytes * option error) :=
  call (ioutil_ReadFile (filepath.Join certsDir "public.crt")).

(** getCert expiration time. *)
Definition getCertExpTime (certsDir : string) : Prog (time.Time * option error) :=
  '(certBytes, err) ← loadCert certsDir;
  match err with
  | Some e => Ret (time.zero, Some e)
  | None => call (acme_GetPEMCertExpiration certBytes)
  end.

(** load certificate meta resource. *)
Definition loadCertMeta (certsDir : string) : Prog (CertificateResource * option error) :=
  '(metaBytes, err) ← call (ioutil_ReadFile (filepath.Join certsDir "certs.json"));
  IfErr err Return CertificateResource_zero ;;
  '(certRes, err) ← call (json_Unmarshal metaBytes);
  IfErr err Return CertificateResource_zero ;;
  Ret (certRes, None).

(** The loop [for _, subDomain := range subDomains] of genCerts. *)
Definition appendSubDomains (domain : string) (subDomains domains : list string) : list string :=
  fold_left (fun domains subDomain => domains ++ [subDomain +:+ "." +:+ domain])
            subDomains domains.

(** The loop [for failedDomain, failedDomainErr := range failures] of
    genCerts, over the entries in the order [range] visits them. *)
Definition collectFailures (visited : list (string * error)) : list string * list error :=
  fold_left (fun acc entry => (fst acc ++ [fst entry], snd acc ++ [snd entry]))
            visited ([], []).

(** generate certificates. *)
Definition genCerts (email domain : string) (subDomains : list string)
  : Prog (CertificateResource * option error) :=
  let rsaKeySize := 2048 in
  '(privateKey, err) ← call (rsa_GenerateKey rsaKeySize);
  IfErr err Return CertificateResource_zero ;;
  let user := {| Email := email; Registration := None; key := privateKey |} in
  '(client, err) ← call (acme_NewClient acmeServer user RSA2048);
  IfErr err Return CertificateResource_zero ;;
  _ ← call (client_ExcludeChallenges client [DNS01]);
  '(reg, err) ← call (client_Register client);
  IfErr err Return CertificateResource_zero ;;
  _ ← call (user_setRegistration client reg);
  err ← call (client_AgreeToTOS client);
  IfErr err Return CertificateResource_zero ;;
  let domains := [domain] in
  let domains :=
    if negb (isSubDomain domain)
    then appendSubDomains domain subDomains domains
    else domains in
  let isBundle := true in
  '(newCertificates, failures) ←
    call (client_ObtainCertificate client domains isBundle None);
  if Z.of_nat (size failures) >? 0 then
    visited ← call (range_map failures);
    let '(failedDomains, failedDomainsErrors) := collectFailures visited in
    let failure :=
      errors_New ("Failed to obtain certificates for Domains: "
                  +:+ fmt_strings failedDomains
                  +:+ ", with following errors "
                  +:+ fmt_errors failedDomainsErrors
                  +:+ " respectively.") in
    Ret (CertificateResource_zero, Some failure)
  else Ret (newCertificates, None).

(** [int(expTime.Sub(time.Now()).Hours() / 24.0)]. *)
Definition expTimeDays (expTime now : time.Time) : Z :=
  float64.toInt (float64.div (time.Hours (time.Sub expTime now)) (float64.ofInt 24)).

(** Renew certificates. *)
Definition renewCerts (certsDir email : string)
  : Prog (CertificateResource * option error) :=
  '(certBytes, err) ← loadCert certsDir;
  IfErr err Return CertificateResource_zero ;;
  '(expTime, err) ← call (acme_GetPEMCertExpiration certBytes);
  now ← call time_Now;
  let expTimeDays := expTimeDays expTime now in
  if expTimeDays >? renewDaysLimit then
    Ret (CertificateResource_zero,
         Some (errors_New ("Keys have not expired yet, please renew in "
                           +:+ fmt_int expTimeDays +:+ " days.")))
  else
  let rsaKeySize := 2048 in
  '(privateKey, err) ← call (rsa_GenerateKey rsaKeySize);
  IfErr err Return CertificateResource_zero ;;
  let user := {| Email := email; Registration := None; key := privateKey |} in
  '(client, err) ← call (acme_NewClient acmeServer user RSA2048);
  IfErr err Return CertificateResource_zero ;;
  _ ← call (client_ExcludeChallenges client [DNS01]);
  '(certMeta, err) ← loadCertMeta certsDir;
  IfErr err Return CertificateResource_zero ;;
  let certMeta := set_Certificate certMeta certBytes in
  let isBundle := true in
  '(newCertificates, err) ← call (client_RenewCertificate client certMeta isBundle);
  IfErr err Return CertificateResource_zero ;;
  Ret (newCertificates, None).

(** saveCerts saves the certificates to disk. This includes the
    certificate file itself, the private key, and the json metadata
    file.  [384] is [0600]. *)
Definition saveCerts (certsDir : string) (cert : CertificateResource) : Prog (option error) :=
  err ← call (ioutil_WriteFile (filepath.Join certsDir "public.crt") (Certificate cert) 384);
  match err with Some e => Ret (Some e) | None =>
  err ← call (ioutil_WriteFile (filepath.Join certsDir "private.key") (PrivateKey cert) 384);
  match err with Some e => Ret (Some e) | None =>
  '(jsonBytes, err) ← call (json_MarshalIndent cert "" (String (ascii_of_nat 9) ""));
  match err with Some e => Ret (Some e) | None =>
  err ← call (ioutil_WriteFile (filepath.Join certsDir "certs.json") jsonBytes 384);
  match err with Some e => Ret (Some e) | None =>
  Ret None
  end end end end.

(** Verify if certs are available in a certs dir. *)
Definition isCertAvailable (certsDir : string) : Prog bool :=
  crtErr ← call (os_Stat (filepath.Join certsDir "public.crt"));
  keyErr ← call (os_Stat (filepath.Join certsDir "private.key"));
  Ret (bool_decide (crtErr = None) && bool_decide (keyErr = None)).

End Certs.

(** ** Vocabulary of the statements *)

Definition startsWith (c : ascii) (s : string) : Prop :=
  exists r, s = String c r.

Definition endsWith (c : ascii) (s : string) : Prop :=
  exists r, s = r +:+ String c "".

Definition occursIn (c : ascii) (s : string) : Prop :=
  exists l r, s = l +:+ String c r.

(** The characters of the forbidden set. *)
Definition forbidden (c : ascii) : Prop :=
  In c (list_ascii_of_string forbiddenChars).

(** What the validator refuses, on the trimmed host. *)
Definition refused (t : string) : Prop :=
  t = ""
  \/ 255 < len t
  \/ (exists c, In c ["-"; "_"; "."]%char /\ (startsWith c t \/ endsWith c t))
  \/ (exists c, forbidden c /\ occursIn c t).

(** The forbidden set of the claim, character by character: the backquote
    ... the vertical bar, the backslash (92), the double quote (34), the
    apostrophe ... the slash. *)
Definition forbiddenSet : list ascii :=
  ["`"; "~"; "!"; "@"; "#"; "$"; "%"; "^"; "&"; "*"; "("; ")"; "+"; "="; "{"; "}";
   "["; "]"; "|"; ascii_of_nat 92; ascii_of_nat 34; "'"; ";"; ":"; ">"; "<"; "?"; "/"]%char.

(** The white space that [strings.TrimSpace] removes: the characters of
    Unicode's White_Space property, U+0009..U+000D, U+0020, U+0085, U+00A0,
    U+1680, U+2000..U+200A, U+2028, U+2029, U+202F, U+205F and U+3000, each
    by the bytes of its UTF-8 encoding. *)
Definition utf8 (l : list nat) : string := string_of_list_ascii (map ascii_of_nat l).

Definition whiteSpace : list string :=
  map utf8
    [[9]; [10]; [11]; [12]; [13]; [32]; [194; 133]; [194; 160]; [225; 154; 128];
     [226; 128; 128]; [226; 128; 129]; [226; 128; 130]; [226; 128; 131];
     [226; 128; 132]; [226; 128; 133]; [226; 128; 134]; [226; 128; 135];
     [226; 128; 136]; [226; 128; 137]; [226; 128; 138]; [226; 128; 168];
     [226; 128; 169]; [226; 128; 175]; [226; 129; 159]; [227; 128; 128]]%nat.

(** A string of white-space characters only. *)
Inductive allSpace : string -> Prop :=
| allSpace_nil : allSpace ""
| allSpace_cons (u s : string) : In u whiteSpace -> allSpace s -> allSpace (u +:+ s).

Definition spaceAtStart (t : string) : Prop :=
  exists u r, In u whiteSpace /\ t = u +:+ r.

Definition spaceAtEnd (t : string) : Prop :=
  exists u l, In u whiteSpace /\ t = l +:+ u.

(** [t] is [host] without the white space around it: white space only was
    taken away on either side, and none is left at either end. *)
Definition trimmed (host t : string) : Prop :=
  (exists pad1 pad2, allSpace pad1 /\ allSpace pad2 /\ host = pad1 +:+ t +:+ pad2)
  /\ ~ spaceAtStart t /\ ~ spaceAtEnd t.

(** The number of characters of a well-formed UTF-8 string: its bytes
    less those that continue a character, 128..191. *)
Fixpoint characters (s : string) : nat :=
  match s with
  | EmptyString => O
  | String a s' =>
      ((if (128 <=? nat_of_ascii a) && (nat_of_ascii a <=? 191) then 0 else 1)
       + characters s')%nat
  end.

(** What the validator refuses in the words of C7, which counts
    characters. *)
Definition refusedAsStated (t : string) : Prop :=
  t = ""
  \/ (255 < characters t)%nat
  \/ (exists c, In c ["-"; "_"; "."]%char /\ (startsWith c t \/ endsWith c t))
  \/ (exists c, In c forbiddenSet /\ occursIn c t).

(** [n] times the letter e with an acute accent, U+00E9, two bytes each. *)
Fixpoint accented (n : nat) : string :=
  match n with
  | O => EmptyString
  | S n' => String (ascii_of_nat 195) (String (ascii_of_nat 169) (accented n'))
  end.

(** A mode that gives the group and the others no permission: none of the
    six low bits, 077, is set. *)
Definition ownerOnly (m : Z) : Prop := Z.land m 63 = 0.

(** The number of bytes of [s] equal to [c]. *)
Fixpoint countByte (s : string) (c : ascii) : nat :=
  match s with
  | EmptyString => O
  | String a s' => ((if Ascii.eqb a c then 1 else 0) + countByte s' c)%nat
  end.

(** [n] spaces. *)
Fixpoint spaces (n : nat) : string :=
  match n with
  | O => EmptyString
  | S n' => String " " (spaces n')
  end.

(** [n] times the letter a. *)
Fixpoint letters (n : nat) : string :=
  match n with
  | O => EmptyString
  | S n' => String "a" (letters n')
  end.

(** A host name behind 245 spaces: 256 bytes. *)
Definition paddedHost : string := spaces 245 +:+ "example.com".

(** The values of a [Duration]. *)
Definition inRange (d : Z) : Prop := time.minDuration <= d <= time.maxDuration.

(** A file that exists and is read without a fault. *)
Definition readable (w : World) (name : string) (data : bytes) : Prop :=
  readFile w name = (data, None).

(** The error of the renewal policy gate. *)
Definition notYetDue (days : Z) : error :=
  errors_New ("Keys have not expired yet, please renew in " +:+ fmt_int days +:+ " days.").

(** The error of a failed issuance, over the failed domains and their
    causes in the order they were visited. *)
Definition issuanceFailure (visited : list (string * error)) : error :=
  errors_New ("Failed to obtain certificates for Domains: "
              +:+ fmt_strings (map fst visited)
              +:+ ", with following errors "
              +:+ fmt_errors (map snd visited)
              +:+ " respectively.").

(** The Go name of a call. *)
Definition callName (c : Call) : string :=
  match c with
  | Called (ioutil_ReadFile _) _ => "ioutil.ReadFile"
  | Called (ioutil_WriteFile _ _ _) _ => "ioutil.WriteFile"
  | Called (os_Stat _) _ => "os.Stat"
  | Called time_Now _ => "time.Now"
  | Called (acme_GetPEMCertExpiration _) _ => "acme.GetPEMCertExpiration"
  | Called (json_Unmarshal _) _ => "json.Unmarshal"
  | Called (json_MarshalIndent _ _ _) _ => "json.MarshalIndent"
  | Called (rsa_GenerateKey _) _ => "rsa.GenerateKey"
  | Called (acme_NewClient _ _ _) _ => "acme.NewClient"
  | Called (client_ExcludeChallenges _ _) _ => "client.ExcludeChallenges"
  | Called (client_Register _) _ => "client.Register"
  | Called (user_setRegistration _ _) _ => "user.Registration ="
  | Called (client_AgreeToTOS _) _ => "client.AgreeToTOS"
  | Called (client_ObtainCertificate _ _ _ _) _ => "client.ObtainCertificate"
  | Called (client_RenewCertificate _ _ _) _ => "client.RenewCertificate"
  | Called (range_map _) _ => "range"
  end.

(** Registration with the CA and acceptance of its agreement. *)
Definition isRegistration (c : Call) : bool :=
  match c with
  | Called (client_Register _) _ => true
  | Called (client_AgreeToTOS _) _ => true
  | _ => false
  end.

(** The domain sets handed to [client.ObtainCertificate], with the bundle
    flag. *)
Definition domainsSubmitted (tr : list Call) : list (list string * bool) :=
  flat_map (fun c => match c with
                     | Called (client_ObtainCertificate _ domains bundle _) _ =>
                         [(domains, bundle)]
                     | _ => []
                     end) tr.

(** The failures that [client.ObtainCertificate] reported. *)
Definition failuresReported (tr : list Call) : list (gmap string error) :=
  flat_map (fun c => match c with
                     | Called (client_ObtainCertificate _ _ _ _) x => [snd x]
                     | _ => []
                     end) tr.

(** The Domain Set in the words of the specification: the primary alone
    when it has more than two dot-separated labels, otherwise the primary
    followed by each subdomain joined to it with a dot. *)
Definition domainSetSpec (primary : string) (subDomains : list string) : list string :=
  if decide (2 < List.length (strings.Split primary "."))%nat
  then [primary]
  else primary :: map (fun sub => sub +:+ "." +:+ primary) subDomains.

(** The indentation that saveCerts asks of [json.MarshalIndent]. *)
Definition tab : string := String (ascii_of_nat 9) "".

(** ** Sample environments *)

(** The production endpoint of the CA. *)
Definition letsEncrypt : string := "https://acme-v01.api.letsencrypt.org/directory".


(** June 1, 2016, 00:00:00 UTC. *)
Definition june2016 : time.Time := 63600336000 * time.Second.

Definition day : time.Duration := 24 * time.Hour.

Definition sampleMeta : CertificateResource :=
  {| Domain := "example.com";
     CertURL := "https://ca.example/cert/1";
     CertStableURL := "https://ca.example/cert/1";
     AccountRef := "https://ca.example/reg/1";
     PrivateKey := "";
     Certificate := "" |}.

Definition sampleCert : CertificateResource :=
  {| Domain := "example.com";
     CertURL := "https://ca.example/cert/2";
     CertStableURL := "https://ca.example/cert/2";
     AccountRef := "https://ca.example/reg/2";
     PrivateKey := "KEY";
     Certificate := "CERT" |}.

(** Collaborators that succeed, with the expiration [pem] read from the
    certificate, the [failures] of an issuance and the [fault] of a write. *)
Definition scripted (pem : time.Time * option error) (failures : gmap string error)
    (fault : string -> option error) (X : Type) (e : Ev X) : X :=
  match e in Ev X return X with
  | ioutil_ReadFile _ => (EmptyString, None)
  | ioutil_WriteFile name _ _ => fault name
  | os_Stat _ => None
  | time_Now => june2016
  | acme_GetPEMCertExpiration _ => pem
  | json_Unmarshal _ => (sampleMeta, None)
  | json_MarshalIndent _ _ _ => ("{}"%string, None)
  | rsa_GenerateKey bits => (rsaKey bits "key", None)
  | acme_NewClient _ _ _ => (clientRef 1, None)
  | client_ExcludeChallenges _ _ => tt
  | client_Register _ => (regRef "https://ca.example/reg/2", None)
  | user_setRegistration _ _ => tt
  | client_AgreeToTOS _ => None
  | client_ObtainCertificate _ _ _ _ =>
      (if decide (failures = ∅) then sampleCert else CertificateResource_zero, failures)
  | client_RenewCertificate _ _ _ => (sampleCert, None)
  | range_map m => map_to_list m
  end.

Definition noFault (name : string) : option error := None.

(** A certificate directory [/etc/concert] holding [crt] and its metadata. *)
Definition storedWorld (crt : bytes) (pem : time.Time * option error) : World :=
  {| fs := {[ "/etc/concert/public.crt"%string := {| content := crt; mode := 384 |};
              "/etc/concert/private.key"%string := {| content := "OLDKEY"; mode := 384 |};
              "/etc/concert/certs.json"%string := {| content := "{}"; mode := 384 |} ]};
     umask := 18;
     answer := scripted pem ∅ noFault;
     leftover := fun _ f => f |}.

(** 100 days and 10 days before expiration. *)
Definition notDueWorld : World := storedWorld "CERT" (june2016 + 100 * day, None).
Definition dueWorld : World := storedWorld "CERT" (june2016 + 10 * day, None).

(** [public.crt] is not a PEM certificate: [acme.GetPEMCertExpiration]
    returns the zero time and an error. *)
Definition badPemWorld : World :=
  storedWorld "not a certificate"
    (time.zero, Some (errors_New "Pem decode did not yield a valid block. Is the certificate in the right format?")).

(** An empty disk and a CA that refuses two of three domains. *)
Definition twoFailures : gmap string error :=
  {[ "www.example.com"%string := errors_New "acme: challenge failed";
     "api.example.com"%string := errors_New "acme: no route to host" ]}.

Definition issuanceWorld (failures : gmap string error) : World :=
  {| fs := ∅; umask := 18; answer := scripted (time.zero, None) failures noFault;
     leftover := fun _ f => f |}.

(** The disk fills up on the metadata write. *)
Definition diskFull (name : string) : option error :=
  if String.eqb name "/etc/concert/certs.json"
  then Some (errors_New "write /etc/concert/certs.json: no space left on device")
  else None.

Definition diskFullWorld : World :=
  {| fs := fs dueWorld; umask := 18;
     answer := scripted (time.zero, None) ∅ diskFull;
     leftover := fun _ _ => Some {| content := ""; mode := 384 |} |}.

(** A disk that holds a private key which everyone may read, mode 0644. *)
Definition looseWorld : World :=
  {| fs := {[ "/etc/concert/private.key"%string := {| content := "OLDKEY"; mode := 420 |} ]};
     umask := 18;
     answer := scripted (time.zero, None) ∅ noFault;
     leftover := fun _ f => f |}.


(** ** Vocabulary of the further properties *)

(** The day count of a duration, and the check that it is exact on the
    first and on the last nanosecond of the [k]-th day, on both sides of
    zero. *)
Definition daysOf (d : time.Duration) : Z :=
  float64.toInt (float64.div (time.Hours d) (float64.ofInt 24)).

Definition exactOnDay (k : nat) : bool :=
  let k := Z.of_nat k in
  (daysOf (k * day) =? k) && (daysOf ((k + 1) * day - 1) =? k)
  && (daysOf (- (k * day)) =? - k) && (daysOf (- ((k + 1) * day - 1)) =? - k).

(** The calls of genCerts and of renewCerts, in the order of the source. *)
Definition genCertsOrder : list string :=
  ["rsa.GenerateKey"; "acme.NewClient"; "client.ExcludeChallenges"; "client.Register";
   "user.Registration ="; "client.AgreeToTOS"; "client.ObtainCertificate"; "range"].

Definition renewCertsOrder : list string :=
  ["ioutil.ReadFile"; "acme.GetPEMCertExpiration"; "time.Now"; "rsa.GenerateKey";
   "acme.NewClient"; "client.ExcludeChallenges"; "ioutil.ReadFile"; "json.Unmarshal";
   "client.RenewCertificate"].

(** The error in the answer of a call, for the calls whose error genCerts
    and renewCerts test before they go on.  The error of
    [acme.GetPEMCertExpiration] is not among them, renewCerts does not look
    at it; the failures of an issuance are a map, visited before the
    return. *)
Definition testedError (c : Call) : option error :=
  match c with
  | Called (ioutil_ReadFile _) (_, e) => e
  | Called (json_Unmarshal _) (_, e) => e
  | Called (rsa_GenerateKey _) (_, e) => e
  | Called (acme_NewClient _ _ _) (_, e) => e
  | Called (client_Register _) (_, e) => e
  | Called (client_AgreeToTOS _) e => e
  | Called (client_RenewCertificate _ _ _) (_, e) => e
  | _ => None
  end.

(** The arguments that certs.go fixes: the key size, the endpoint, the
    account as created, the key type, the excluded challenge, the bundling
    and the absent certificate key. *)
Definition fixedArguments (acmeServer email : string) (c : Call) : Prop :=
  match c with
  | Called (rsa_GenerateKey bits) _ => bits = 2048
  | Called (acme_NewClient url user keyType) _ =>
      url = acmeServer /\ Email user = email /\ Registration user = None
      /\ keyType = RSA2048
  | Called (client_ExcludeChallenges _ challenges) _ => challenges = [DNS01]
  | Called (client_ObtainCertificate _ _ bundle privKey) _ =>
      bundle = true /\ privKey = None
  | Called (client_RenewCertificate _ _ bundle) _ => bundle = true
  | _ => True
  end.

(** The keys that [rsa.GenerateKey] returned without an error, and the
    keys of the accounts that clients were built for. *)
Definition keysGenerated (tr : list Call) : list rsaPrivateKey :=
  flat_map (fun c => match c with
                     | Called (rsa_GenerateKey _) (k, None) => [k]
                     | _ => []
                     end) tr.

Definition accountKeys (tr : list Call) : list rsaPrivateKey :=
  flat_map (fun c => match c with
                     | Called (acme_NewClient _ user _) _ => [key user]
                     | _ => []
                     end) tr.

(** The clients that [acme.NewClient] returned without an error, and the
    clients that were operated on. *)
Definition clientsBuilt (tr : list Call) : list acmeClient :=
  flat_map (fun c => match c with
                     | Called (acme_NewClient _ _ _) (cl, None) => [cl]
                     | _ => []
                     end) tr.

Definition clientsUsed (tr : list Call) : list acmeClient :=
  flat_map (fun c => match c with
                     | Called (client_ExcludeChallenges cl _) _ => [cl]
                     | Called (client_Register cl) _ => [cl]
                     | Called (user_setRegistration cl _) _ => [cl]
                     | Called (client_AgreeToTOS cl) _ => [cl]
                     | Called (client_ObtainCertificate cl _ _ _) _ => [cl]
                     | Called (client_RenewCertificate cl _ _) _ => [cl]
                     | _ => []
                     end) tr.


(** The requests for a renewal: the resource sent, and the answer. *)
Definition renewalsRequested (tr : list Call)
  : list (CertificateResource * (CertificateResource * option error)) :=
  flat_map (fun c => match c with
                     | Called (client_RenewCertificate _ cert _) x => [(cert, x)]
                     | _ => []
                     end) tr.

(** The answers of [client.ObtainCertificate]. *)
Definition certificatesObtained (tr : list Call)
  : list (CertificateResource * gmap string error) :=
  flat_map (fun c => match c with
                     | Called (client_ObtainCertificate _ _ _ _) x => [x]
                     | _ => []
                     end) tr.

(** The file that a successful write of [data] with mode 0600 leaves under
    [name] in the world [w]. *)
Definition storedFile (w : World) (name : string) (data : bytes) : File :=
  {| content := data;
     mode := match fs w !! name with
             | Some f => mode f
             | None => Z.land 384 (Z.lnot (umask w))
             end |}.

(** A string of ASCII white space only: tabs, line feeds, vertical tabs,
    form feeds, carriage returns and spaces. *)
Fixpoint blank (s : string) : bool :=
  match s with
  | EmptyString => true
  | String a s' => strings.isSpace1 a && blank s'
  end.

(** A visible ASCII byte: above the space and below DEL. *)
Definition visible (a : ascii) : bool :=
  let n := nat_of_ascii a in
  ((33 <=? n) && (n <=? 126))%nat.

(** A disk on which no file can be written. *)
Definition readOnly (name : string) : option error :=
  Some (errors_New ("open " +:+ name +:+ ": permission denied")).

Definition readOnlyWorld : World :=
  {| fs := fs dueWorld; umask := 18;
     answer := scripted (time.zero, None) ∅ readOnly;
     leftover := fun _ f => f |}.

(** * Properties *)

(** Symbolic execution of a run: unfold the program, keep the arithmetic,
    the disk and the formatting folded. *)
Ltac exec :=
  cbn -[expTimeDays renewDaysLimit fmt_int Z.gtb filepath.Join
        readFile writeFile stat rangeOrder isSubDomain appendSubDomains
        collectFailures fmt_strings fmt_errors size].

Ltac answer_cases :=
  repeat match goal with
         | |- context [match answer ?w ?X ?e with _ => _ end] =>
             destruct (answer w X e) eqn:?; exec
         | |- context [match readFile ?w ?n with _ => _ end] =>
             destruct (readFile w n) eqn:?; exec
         | |- context [match ?o with Some _ => _ | None => _ end] =>
             is_var o; destruct o; exec
         end.


(** ** Strings *)

#[local] Arguments append !_ _ / : simpl nomatch.

Section StringFacts.

Lemma append_nil_r (s : string) : s +:+ "" = s.
Proof. induction s as [|a s IH]; simpl; [reflexivity | now rewrite IH]. Qed.

Lemma append_assoc (s t u : string) : (s +:+ t) +:+ u = s +:+ (t +:+ u).
Proof. induction s as [|a s IH]; simpl; [reflexivity | now rewrite IH]. Qed.

Lemma length_append (s t : string) :
  String.length (s +:+ t) = (String.length s + String.length t)%nat.
Proof. induction s as [|a s IH]; simpl; [reflexivity | now rewrite IH]. Qed.

Lemma snoc_cases (s : string) :
  s = "" \/ exists r c, s = r +:+ String c "".
Proof.
  induction s as [|a s IH]; [now left | right].
  destruct IH as [-> | (r & c & ->)].
  - now exists "", a.
  - now exists (String a r), c.
Qed.

Lemma snoc_inj (r r' : string) (c c' : ascii) :
  r +:+ String c "" = r' +:+ String c' "" -> r = r' /\ c = c'.
Proof.
  revert r'; induction r as [|a r IH]; intros [|a' r'] H; simpl in H.
  - now inversion H.
  - inversion H as [[Ha Hr]]. destruct r'; discriminate.
  - inversion H as [[Ha Hr]]. destruct r; discriminate.
  - inversion H as [[Ha Hr]]. destruct (IH _ Hr) as [-> ->]. now split.
Qed.

Lemma substring_0_0 (s : string) : substring 0 0 s = "".
Proof. now destruct s. Qed.

Lemma substring_snoc (r : string) (c : ascii) :
  substring (String.length r) 1 (r +:+ String c "") = String c "".
Proof. induction r as [|a r IH]; simpl; [reflexivity | exact IH]. Qed.

Lemma slice_first (c : ascii) (r : string) :
  slice (String c r) 0 1 = Some (String c "").
Proof.
  unfold slice.
  replace ((0 <=? 0) && (0 <=? 1) && (1 <=? Z.of_nat (String.length (String c r))))
    with true.
  - simpl. now rewrite substring_0_0.
  - symmetry. simpl String.length. rewrite !andb_true_iff, !Z.leb_le. lia.
Qed.

Lemma slice_last (r : string) (c : ascii) :
  let s := r +:+ String c "" in
  slice s (len s - 1) (len s) = Some (String c "").
Proof.
  intros s. unfold slice, len.
  assert (Hlen : String.length s = S (String.length r)).
  { unfold s. rewrite length_append. simpl. lia. }
  rewrite Hlen.
  replace ((0 <=? Z.of_nat (S (String.length r)) - 1)
           && (Z.of_nat (S (String.length r)) - 1 <=? Z.of_nat (S (String.length r)))
           && (Z.of_nat (S (String.length r)) <=? Z.of_nat (S (String.length r))))
    with true
    by (symmetry; rewrite !andb_true_iff, !Z.leb_le; lia).
  replace (Z.to_nat (Z.of_nat (S (String.length r)) - 1)) with (String.length r) by lia.
  replace (Z.to_nat (Z.of_nat (S (String.length r)) - (Z.of_nat (S (String.length r)) - 1)))
    with 1%nat by lia.
  unfold s. now rewrite substring_snoc.
Qed.

Lemma eqb_single (a c : ascii) :
  String.eqb (String a "") (String c "") = Ascii.eqb a c.
Proof. simpl. now destruct (Ascii.eqb a c). Qed.

Lemma startsWith_cons (c a : ascii) (r : string) :
  startsWith c (String a r) <-> a = c.
Proof.
  split.
  - intros [r' H]. now inversion H.
  - intros ->. now exists r.
Qed.

Lemma endsWith_snoc (c z : ascii) (r : string) :
  endsWith c (r +:+ String z "") <-> z = c.
Proof.
  split.
  - intros [r' H]. now destruct (snoc_inj _ _ _ _ H).
  - intros ->. now exists r.
Qed.

Lemma IndexByte_In (chars : string) (c : ascii) :
  strings.IndexByte chars c = true <-> In c (list_ascii_of_string chars).
Proof.
  induction chars as [|a chars IH]; simpl.
  - split; [discriminate | tauto].
  - rewrite orb_true_iff, IH, Ascii.eqb_eq. tauto.
Qed.

Lemma occursIn_cons (c a : ascii) (s : string) :
  occursIn c (String a s) <-> a = c \/ occursIn c s.
Proof.
  split.
  - intros (l & r & H). destruct l as [|b l]; simpl in H; inversion H; subst.
    + now left.
    + right. now exists l, r.
  - intros [-> | (l & r & ->)].
    + now exists "", s.
    + now exists (String a l), r.
Qed.

Lemma occursIn_nil (c : ascii) : ~ occursIn c "".
Proof. intros (l & r & H). destruct l; discriminate. Qed.

Lemma ContainsAny_spec (s chars : string) :
  strings.ContainsAny s chars = true
  <-> exists c, In c (list_ascii_of_string chars) /\ occursIn c s.
Proof.
  induction s as [|a s IH]; simpl.
  - split; [discriminate | intros (c & _ & H); now apply occursIn_nil in H].
  - rewrite orb_true_iff, IH, IndexByte_In. split.
    + intros [H | (c & Hc & Ho)].
      * exists a. split; [assumption | apply occursIn_cons; now left].
      * exists c. split; [assumption | apply occursIn_cons; now right].
    + intros (c & Hc & Ho). apply occursIn_cons in Ho as [-> | Ho].
      * now left.
      * right. now exists c.
Qed.

Lemma revAcc_append (s acc : string) :
  strings.revAcc s acc = strings.rev s +:+ acc.
Proof.
  unfold strings.rev. revert acc.
  induction s as [|a s IH]; intros acc; simpl; [reflexivity |].
  rewrite IH, (IH (String a "")), append_assoc. reflexivity.
Qed.

Lemma rev_cons (a : ascii) (s : string) :
  strings.rev (String a s) = strings.rev s +:+ String a "".
Proof. unfold strings.rev at 1. simpl. apply revAcc_append. Qed.

Lemma rev_append (s t : string) : strings.rev (s +:+ t) = strings.rev t +:+ strings.rev s.
Proof.
  induction s as [|a s IH]; simpl.
  - now rewrite append_nil_r.
  - now rewrite !rev_cons, IH, append_assoc.
Qed.

Lemma rev_involutive (s : string) : strings.rev (strings.rev s) = s.
Proof.
  induction s as [|a s IH]; [reflexivity |].
  rewrite rev_cons, rev_append, IH. reflexivity.
Qed.

Lemma by_length (P : string -> Prop) :
  (forall s, (forall s', (String.length s' < String.length s)%nat -> P s') -> P s) ->
  forall s, P s.
Proof.
  intros H s. remember (String.length s) as n eqn:E. revert s E.
  induction n as [n IH] using lt_wf_ind. intros s ->.
  apply H. intros s' Hlt. exact (IH _ Hlt s' eq_refl).
Qed.

End StringFacts.

(** ** White space *)

Section TrimSpec.

Ltac space_values H :=
  revert H;
  unfold strings.isSpace1, strings.isSpace2, strings.isSpace3; cbv zeta;
  repeat (progress rewrite ?andb_true_iff, ?orb_true_iff, ?Nat.leb_le, ?Nat.eqb_eq);
  intros H.

Lemma isSpace1_In (a : ascii) :
  strings.isSpace1 a = true -> In (String a "") whiteSpace.
Proof.
  intros H. rewrite <- (ascii_nat_embedding a). space_values H.
  assert (Hn : (nat_of_ascii a = 9 \/ nat_of_ascii a = 10 \/ nat_of_ascii a = 11
                \/ nat_of_ascii a = 12 \/ nat_of_ascii a = 13 \/ nat_of_ascii a = 32)%nat)
    by lia.
  clear H. repeat destruct Hn as [Hn | Hn]; rewrite Hn; simpl; tauto.
Qed.

Lemma isSpace2_In (a b : ascii) :
  strings.isSpace2 a b = true -> In (String a (String b "")) whiteSpace.
Proof.
  intros H. rewrite <- (ascii_nat_embedding a), <- (ascii_nat_embedding b).
  space_values H. destruct H as [Ha [Hb | Hb]]; rewrite Ha, Hb; simpl; tauto.
Qed.

Lemma isSpace3_In (a b c : ascii) :
  strings.isSpace3 a b c = true -> In (String a (String b (String c ""))) whiteSpace.
Proof.
  intros H.
  rewrite <- (ascii_nat_embedding a), <- (ascii_nat_embedding b), <- (ascii_nat_embedding c).
  space_values H.
  destruct H as [[[[[Ha Hb] Hc] | [[Ha Hb] Hc]] | [[Ha Hb] Hc]] | [[Ha Hb] Hc]];
    rewrite Ha, Hb; try (rewrite Hc; simpl; tauto).
  destruct Hc as [[[Hc | Hc] | Hc] | Hc]; try (rewrite Hc; simpl; tauto).
  assert (Hn : (nat_of_ascii c = 128 \/ nat_of_ascii c = 129 \/ nat_of_ascii c = 130
                \/ nat_of_ascii c = 131 \/ nat_of_ascii c = 132 \/ nat_of_ascii c = 133
                \/ nat_of_ascii c = 134 \/ nat_of_ascii c = 135 \/ nat_of_ascii c = 136
                \/ nat_of_ascii c = 137 \/ nat_of_ascii c = 138)%nat) by lia.
  clear Hc. repeat destruct Hn as [Hn | Hn]; rewrite Hn; simpl; tauto.
Qed.

(** A string that starts with a white-space character starts with the
    bytes that the scan tests. *)
Lemma spaceAtStart_inv (t : string) :
  spaceAtStart t ->
  match t with
  | EmptyString => False
  | String a r =>
      strings.isSpace1 a = true
      \/ (exists b r2, r = String b r2 /\ strings.isSpace2 a b = true)
      \/ (exists b c r3, r = String b (String c r3) /\ strings.isSpace3 a b c = true)
  end.
Proof.
  intros (u & r & Hin & ->). simpl in Hin.
  repeat destruct Hin as [<- | Hin]; try contradiction; simpl;
    first [ left; reflexivity
          | right; left; eexists _, _; split; reflexivity
          | right; right; eexists _, _, _; split; reflexivity ].
Qed.

(** The same at the end, on the reversed string. *)
Lemma spaceAtEnd_inv (t : string) :
  spaceAtEnd t ->
  match strings.rev t with
  | EmptyString => False
  | String a r =>
      strings.isSpace1 a = true
      \/ (exists b r2, r = String b r2 /\ strings.isSpace2 b a = true)
      \/ (exists b c r3, r = String b (String c r3) /\ strings.isSpace3 c b a = true)
  end.
Proof.
  intros (u & l & Hin & ->). rewrite rev_append. simpl in Hin.
  repeat destruct Hin as [<- | Hin]; try contradiction; simpl;
    first [ left; reflexivity
          | right; left; eexists _, _; split; reflexivity
          | right; right; eexists _, _, _; split; reflexivity ].
Qed.

Lemma allSpace_app (s t : string) : allSpace s -> allSpace t -> allSpace (s +:+ t).
Proof.
  intros Hs Ht. induction Hs as [|u s Hu Hs IH]; [exact Ht |].
  rewrite append_assoc. now constructor.
Qed.

Lemma allSpace_one (u : string) : In u whiteSpace -> allSpace u.
Proof. intros H. rewrite <- (append_nil_r u). constructor; [exact H | constructor]. Qed.

(** The scan from the left takes white space away, and white space only. *)
Lemma TrimLeftSpace_split (s : string) :
  exists pad, allSpace pad /\ s = pad +:+ strings.TrimLeftSpace s.
Proof.
  induction s as [s IH] using by_length.
  destruct s as [|a s1]; [exists ""; split; [constructor | reflexivity] |].
  cbn [strings.TrimLeftSpace].
  destruct (strings.isSpace1 a) eqn:Ha.
  { destruct (IH s1) as (pad & Hpad & Hs); [simpl; lia |].
    exists (String a "" +:+ pad). split.
    - constructor; [now apply isSpace1_In | exact Hpad].
    - simpl. now rewrite <- Hs. }
  destruct s1 as [|b s2]; [exists ""; split; [constructor | reflexivity] |].
  destruct (strings.isSpace2 a b) eqn:Hab.
  { destruct (IH s2) as (pad & Hpad & Hs); [simpl; lia |].
    exists (String a (String b "") +:+ pad). split.
    - constructor; [now apply isSpace2_In | exact Hpad].
    - simpl. now rewrite <- Hs. }
  destruct s2 as [|c s3]; [exists ""; split; [constructor | reflexivity] |].
  destruct (strings.isSpace3 a b c) eqn:Habc.
  { destruct (IH s3) as (pad & Hpad & Hs); [simpl; lia |].
    exists (String a (String b (String c "")) +:+ pad). split.
    - constructor; [now apply isSpace3_In | exact Hpad].
    - simpl. now rewrite <- Hs. }
  exists "". split; [constructor | reflexivity].
Qed.

(** It stops where no white space follows. *)
Lemma TrimLeftSpace_stops (s : string) : ~ spaceAtStart (strings.TrimLeftSpace s).
Proof.
  induction s as [s IH] using by_length.
  destruct s as [|a s1]; [intros (u & r & Hin & H); simpl in Hin;
                          repeat destruct Hin as [<- | Hin]; try contradiction;
                          discriminate H |].
  cbn [strings.TrimLeftSpace].
  destruct (strings.isSpace1 a) eqn:Ha; [apply IH; simpl; lia |].
  destruct s1 as [|b s2].
  { intros H. apply spaceAtStart_inv in H.
    destruct H as [H | [(b & r2 & H & _) | (b & c & r3 & H & _)]]; congruence. }
  destruct (strings.isSpace2 a b) eqn:Hab; [apply IH; simpl; lia |].
  destruct s2 as [|c s3].
  { intros H. apply spaceAtStart_inv in H.
    destruct H as [H | [(b' & r2 & H & H') | (b' & c & r3 & H & _)]]; congruence. }
  destruct (strings.isSpace3 a b c) eqn:Habc; [apply IH; simpl; lia |].
  intros H. apply spaceAtStart_inv in H.
  destruct H as [H | [(b' & r2 & H & H') | (b' & c' & r3 & H & H')]]; congruence.
Qed.

(** The scan from the right, on the reversed string. *)
Lemma TrimLeftSpaceRev_split (x : string) :
  exists pad, allSpace (strings.rev pad) /\ x = pad +:+ strings.TrimLeftSpaceRev x.
Proof.
  induction x as [x IH] using by_length.
  destruct x as [|a s1]; [exists ""; split; [constructor | reflexivity] |].
  cbn [strings.TrimLeftSpaceRev].
  destruct (strings.isSpace1 a) eqn:Ha.
  { destruct (IH s1) as (pad & Hpad & Hs); [simpl; lia |].
    exists (String a pad). split.
    - rewrite rev_cons. apply allSpace_app; [exact Hpad |].
      apply allSpace_one. now apply isSpace1_In.
    - simpl. now rewrite <- Hs. }
  destruct s1 as [|b s2]; [exists ""; split; [constructor | reflexivity] |].
  destruct (strings.isSpace2 b a) eqn:Hab.
  { destruct (IH s2) as (pad & Hpad & Hs); [simpl; lia |].
    exists (String a (String b pad)). split.
    - rewrite !rev_cons, append_assoc. apply allSpace_app; [exact Hpad |].
      apply allSpace_one. now apply isSpace2_In.
    - simpl. now rewrite <- Hs. }
  destruct s2 as [|c s3]; [exists ""; split; [constructor | reflexivity] |].
  destruct (strings.isSpace3 c b a) eqn:Habc.
  { destruct (IH s3) as (pad & Hpad & Hs); [simpl; lia |].
    exists (String a (String b (String c pad))). split.
    - rewrite !rev_cons, !append_assoc. apply allSpace_app; [exact Hpad |].
      apply allSpace_one. now apply isSpace3_In.
    - simpl. now rewrite <- Hs. }
  exists "". split; [constructor | reflexivity].
Qed.

Lemma TrimLeftSpaceRev_stops (x : string) :
  ~ spaceAtEnd (strings.rev (strings.TrimLeftSpaceRev x)).
Proof.
  intros H. apply spaceAtEnd_inv in H. rewrite rev_involutive in H. revert H.
  induction x as [x IH] using by_length.
  destruct x as [|a s1]; [exact (fun H => H) |].
  cbn [strings.TrimLeftSpaceRev].
  destruct (strings.isSpace1 a) eqn:Ha; [apply IH; simpl; lia |].
  destruct s1 as [|b s2].
  { intros [H | [(b & r2 & H & _) | (b & c & r3 & H & _)]]; congruence. }
  destruct (strings.isSpace2 b a) eqn:Hab; [apply IH; simpl; lia |].
  destruct s2 as [|c s3].
  { intros [H | [(b' & r2 & H & H') | (b' & c & r3 & H & _)]]; congruence. }
  destruct (strings.isSpace3 c b a) eqn:Habc; [apply IH; simpl; lia |].
  intros [H | [(b' & r2 & H & H') | (b' & c' & r3 & H & H')]]; congruence.
Qed.

(** [strings.TrimSpace] returns the string without the white space around
    it. *)
Lemma TrimSpace_trimmed (host : string) : trimmed host (strings.TrimSpace host).
Proof.
  unfold strings.TrimSpace, strings.TrimRightSpace.
  destruct (TrimLeftSpace_split host) as (pad1 & Hpad1 & Hhost).
  pose proof (TrimLeftSpace_stops host) as Hstart.
  set (L := strings.TrimLeftSpace host) in *.
  destruct (TrimLeftSpaceRev_split (strings.rev L)) as (q & Hq & HL).
  pose proof (TrimLeftSpaceRev_stops (strings.rev L)) as Hend.
  set (t := strings.rev (strings.TrimLeftSpaceRev (strings.rev L))) in *.
  assert (HLt : L = t +:+ strings.rev q).
  { rewrite <- (rev_involutive L), HL, rev_append. reflexivity. }
  split; [| split].
  - exists pad1, (strings.rev q). split; [exact Hpad1 |]. split; [exact Hq |].
    now rewrite <- HLt.
  - intros (u & r & Hin & Ht). apply Hstart. exists u, (r +:+ strings.rev q).
    split; [exact Hin |]. now rewrite HLt, Ht, append_assoc.
  - exact Hend.
Qed.

End TrimSpec.

(** ** The domain validator *)

Section DomainValidator.

Lemma slice_last_eq (s r : string) (c : ascii) :
  s = r +:+ String c "" -> slice s (len s - 1) (len s) = Some (String c "").
Proof. intros ->. apply slice_last. Qed.

Lemma refused_edge (t : string) (c : ascii) :
  In c ["-"; "_"; "."]%char -> startsWith c t \/ endsWith c t -> refused t.
Proof. intros Hc H. right; right; left. now exists c. Qed.

(** The validator either refuses the trimmed host and answers false, or
    does not and answers true. *)
Lemma isValidDomain_cases (host : string) :
  let t := strings.TrimSpace host in
  (refused t /\ isValidDomain host = Some false)
  \/ (~ refused t /\ isValidDomain host = Some true).
Proof.
  unfold isValidDomain. cbv zeta.
  generalize (strings.TrimSpace host) as t. intros t.
  destruct t as [|a t'].
  { left. split; [now left | reflexivity]. }
  destruct (snoc_cases (String a t')) as [Hnil | (r & z & Hsnoc)]; [discriminate |].
  rewrite (slice_last_eq _ _ _ Hsnoc), slice_first.
  unfold strEq. rewrite !eqb_single.
  set (t := String a t') in *.
  assert (Hlen0 : (len t =? 0) = false).
  { apply Z.eqb_neq. unfold len, t. simpl String.length. lia. }
  rewrite Hlen0. simpl orb.
  destruct (len t >? 255) eqn:Hlen.
  { left. split; [right; left; now apply Z.gtb_lt in Hlen | reflexivity]. }
  assert (Hstart : forall c, startsWith c t <-> a = c) by (intros c; apply startsWith_cons).
  assert (Hend : forall c, endsWith c t <-> z = c).
  { intros c. rewrite Hsnoc. apply endsWith_snoc. }
  destruct (Ascii.eqb z "-") eqn:Hz1; simpl orElse.
  { left. split; [| reflexivity]. apply Ascii.eqb_eq in Hz1.
    apply (refused_edge t "-"%char); [simpl; tauto | right; now apply Hend]. }
  destruct (Ascii.eqb a "-") eqn:Ha1.
  { left. split; [| reflexivity]. apply Ascii.eqb_eq in Ha1.
    apply (refused_edge t "-"%char); [simpl; tauto | left; now apply Hstart]. }
  destruct (Ascii.eqb z "_") eqn:Hz2; simpl orElse.
  { left. split; [| reflexivity]. apply Ascii.eqb_eq in Hz2.
    apply (refused_edge t "_"%char); [simpl; tauto | right; now apply Hend]. }
  destruct (Ascii.eqb a "_") eqn:Ha2.
  { left. split; [| reflexivity]. apply Ascii.eqb_eq in Ha2.
    apply (refused_edge t "_"%char); [simpl; tauto | left; now apply Hstart]. }
  destruct (Ascii.eqb z ".") eqn:Hz3; simpl orElse.
  { left. split; [| reflexivity]. apply Ascii.eqb_eq in Hz3.
    apply (refused_edge t "."%char); [simpl; tauto | right; now apply Hend]. }
  destruct (Ascii.eqb a ".") eqn:Ha3.
  { left. split; [| reflexivity]. apply Ascii.eqb_eq in Ha3.
    apply (refused_edge t "."%char); [simpl; tauto | left; now apply Hstart]. }
  destruct (strings.ContainsAny t forbiddenChars) eqn:Hany.
  { left. split; [| reflexivity]. right; right; right.
    now apply ContainsAny_spec in Hany. }
  right. split; [| reflexivity].
  intros [H | [H | [(c & Hc & H) | H]]].
  - discriminate.
  - rewrite Z.gtb_ltb, Z.ltb_ge in Hlen. lia.
  - apply Ascii.eqb_neq in Hz1, Ha1, Hz2, Ha2, Hz3, Ha3.
    rewrite Hstart, Hend in H.
    simpl in Hc. destruct Hc as [<- | [<- | [<- | []]]]; destruct H; congruence.
  - apply ContainsAny_spec in H. congruence.
Qed.

(** C7, as the code has it: the length is counted in bytes.  For every
    string, isValidDomain trims the surrounding white space and then
    answers false exactly when the trimmed string is empty, is longer than
    255 bytes, starts or ends with a hyphen, an underscore or a dot, or
    holds a character of the forbidden set; otherwise it answers true.  It
    never panics. *)
Theorem isValidDomain_spec (host : string) :
  let t := strings.TrimSpace host in
  let refusedT :=
    t = ""
    \/ 255 < len t
    \/ (exists c, In c ["-"; "_"; "."]%char /\ (startsWith c t \/ endsWith c t))
    \/ (exists c, In c forbiddenSet /\ occursIn c t) in
  trimmed host t
  /\ (isValidDomain host = Some false <-> refusedT)
  /\ (isValidDomain host = Some true <-> ~ refusedT)
  /\ isValidDomain host <> None.
Proof.
  intros t refusedT. split; [apply TrimSpace_trimmed |].
  change refusedT with (refused t).
  destruct (isValidDomain_cases host) as [[Hr Hv] | [Hr Hv]];
    fold t in Hr; rewrite Hv; repeat split; try tauto; try discriminate; intros; exfalso; tauto.
Qed.

End DomainValidator.

Lemma isValidDomain_spec_witness :
  isValidDomain (tab +:+ " example.com ") = Some true
  /\ isValidDomain " -bad.com" = Some false
  /\ trimmed (tab +:+ " example.com ") "example.com".
Proof.
  split; [| split].
  - destruct (isValidDomain_spec (tab +:+ " example.com ")) as (_ & _ & [_ H] & _).
    apply H. change (strings.TrimSpace (tab +:+ " example.com ")) with "example.com"%string.
    intros [H1 | [H1 | [(c & Hc & H1) | (c & Hc & H1)]]].
    + discriminate H1.
    + discriminate H1.
    + assert (Hs : ~ startsWith c "example.com")
        by (rewrite startsWith_cons; intros <-; simpl in Hc; intuition discriminate).
      assert (He : ~ endsWith c ("example.co" +:+ "m"))
        by (rewrite endsWith_snoc; intros <-; simpl in Hc; intuition discriminate).
      tauto.
    + assert (Hany : strings.ContainsAny "example.com" forbiddenChars = true)
        by (apply ContainsAny_spec; exists c; split; assumption).
      discriminate Hany.
  - destruct (isValidDomain_spec " -bad.com") as (_ & [_ H] & _).
    apply H. change (strings.TrimSpace " -bad.com") with "-bad.com"%string.
    right; right; left. exists "-"%char. split; [now left | left; now exists "bad.com"%string].
  - exact (proj1 (isValidDomain_spec (tab +:+ " example.com "))).
Defined.

Example TrimSpace_examples :
  let tabs := String (ascii_of_nat 9) (String (ascii_of_nat 10) "") in
  let nbsp := String (ascii_of_nat 194) (String (ascii_of_nat 160) "") in
  let ideographic :=
    String (ascii_of_nat 227) (String (ascii_of_nat 128) (String (ascii_of_nat 128) "")) in
  let stray := String (ascii_of_nat 194) "" in
  strings.TrimSpace ("  a b " +:+ tabs) = "a b"
  /\ strings.TrimSpace (nbsp +:+ "example.com" +:+ ideographic +:+ " ") = "example.com"
  /\ strings.TrimSpace (stray +:+ " x") = stray +:+ " x"
  /\ strings.TrimSpace (tabs +:+ nbsp) = "".
Proof. repeat split. Qed.

Example isValidDomain_examples :
  isValidDomain "example.com" = Some true
  /\ isValidDomain "-bad.com" = Some false
  /\ isValidDomain "bad.com_" = Some false
  /\ isValidDomain " example.com " = Some true
  /\ isValidDomain "exa/mple.com" = Some false
  /\ isValidDomain "" = Some false.
Proof. repeat split. Qed.

Example isValidDomain_length_boundary :
  isValidDomain (letters 255) = Some true /\ isValidDomain (letters 256) = Some false.
Proof. split; vm_compute; reflexivity. Qed.

Lemma accented_refused : isValidDomain (accented 128) = Some false.
Proof. vm_compute. reflexivity. Qed.

Lemma accented_trimmed : trimmed (accented 128) (accented 128).
Proof.
  split; [| split].
  - exists ""%string, ""%string. split; [constructor |]. split; [constructor |].
    cbn [append]. symmetry. apply append_nil_r.
  - intros H. apply spaceAtStart_inv in H. simpl in H.
    destruct H as [H | [(b & r2 & H & H') | (b & c & r3 & H & H')]];
      [discriminate H | injection H as <- _; discriminate H'
      | injection H as <- <- _; discriminate H'].
  - intros H. apply spaceAtEnd_inv in H.
    assert (Hrev : exists x, strings.rev (accented 128)
                   = String (ascii_of_nat 169) (String (ascii_of_nat 195)
                       (String (ascii_of_nat 169) x)))
      by (eexists; vm_compute; reflexivity).
    destruct Hrev as [x Hrev]. rewrite Hrev in H.
    destruct H as [H | [(b & r2 & H & H') | (b & c & r3 & H & H')]];
      [discriminate H | injection H as <- _; discriminate H'
      | injection H as <- <- _; discriminate H'].
Qed.

Lemma accented_not_refused_as_stated : ~ refusedAsStated (accented 128).
Proof.
  intros [H | [H | [(c & Hc & H) | (c & Hc & H)]]].
  - discriminate H.
  - assert (Hn : characters (accented 128) = 128%nat) by (vm_compute; reflexivity).
    rewrite Hn in H. lia.
  - assert (Hs : ~ startsWith c (accented 128)).
    { change (accented 128) with (String (ascii_of_nat 195)
                                    (String (ascii_of_nat 169) (accented 127))).
      rewrite startsWith_cons. intros <-. simpl in Hc. intuition discriminate. }
    assert (He : ~ endsWith c (accented 128)).
    { assert (Hsnoc : accented 128
                      = (accented 127 +:+ String (ascii_of_nat 195) "")
                          +:+ String (ascii_of_nat 169) "")
        by (vm_compute; reflexivity).
      rewrite Hsnoc, endsWith_snoc. intros <-. simpl in Hc. intuition discriminate. }
    tauto.
  - assert (Hany : strings.ContainsAny (accented 128) forbiddenChars = true)
      by (apply ContainsAny_spec; exists c; split; assumption).
    vm_compute in Hany. discriminate Hany.
Qed.

(** C7 as stated fails: 128 two-byte characters come to 256 bytes, and
    the validator refuses them though they are neither empty nor longer
    than 255 characters, have no hyphen, underscore or dot at either end
    and hold no forbidden character. *)
Lemma isValidDomain_characters_refuted :
  ~ (forall host t, trimmed host t ->
       (isValidDomain host = Some false <-> refusedAsStated t)).
Proof.
  intros H. apply accented_not_refused_as_stated.
  apply (H (accented 128) (accented 128) accented_trimmed). exact accented_refused.
Qed.

Section DomainLength.

(** C6, as the code has it: the length that counts is the one after
    trimming.  For every string whose length after trimming the
    surrounding white space is 0 or more than 255, isValidDomain answers
    false. *)
Theorem isValidDomain_trimmed_length (host : string) :
  len (strings.TrimSpace host) = 0 \/ 255 < len (strings.TrimSpace host) ->
  isValidDomain host = Some false.
Proof.
  intros H.
  destruct (isValidDomain_cases host) as [[_ Hv] | [Hn _]]; [exact Hv | exfalso].
  apply Hn. destruct H as [H | H]; [left | right; left; exact H].
  unfold len in H. destruct (strings.TrimSpace host); [reflexivity | simpl in H; lia].
Qed.

Lemma isValidDomain_trimmed_length_witness :
  isValidDomain (spaces 3) = Some false.
Proof.
  apply (isValidDomain_trimmed_length (spaces 3)). left. reflexivity.
Defined.

Lemma isValidDomain_long_accepted :
  255 < len paddedHost /\ isValidDomain paddedHost = Some true.
Proof. split; [vm_compute; reflexivity | vm_compute; reflexivity]. Qed.

(** C6 as stated fails: a string of 256 bytes, a host name behind 245
    spaces, is accepted. *)
Lemma isValidDomain_length_refuted :
  ~ (forall host, len host = 0 \/ 255 < len host -> isValidDomain host = Some false).
Proof.
  intros H. specialize (H paddedHost).
  destruct isValidDomain_long_accepted as [Hlen Hok].
  rewrite Hok in H. discriminate H. now right.
Qed.

End DomainLength.

(** ** isSubDomain and the split on dots *)

Section SubDomain.

Lemma joinWith_cons (sep x : string) (l : list string) :
  l <> [] -> joinWith sep (x :: l) = x +:+ sep +:+ joinWith sep l.
Proof. destruct l; [congruence | reflexivity]. Qed.

Lemma genSplit_nonempty (s sep : string) (skip : nat) (cur : string) :
  strings.genSplit s sep skip cur <> [].
Proof.
  revert skip cur. induction s as [|a s IH]; intros skip cur; cbn [strings.genSplit];
    [discriminate |].
  destruct skip as [|k]; [| apply IH].
  destruct (strings.HasPrefix (String a s) sep); [intros H; discriminate H | apply IH].
Qed.

Lemma HasPrefix_dot (a : ascii) (s : string) :
  strings.HasPrefix (String a s) "." = Ascii.eqb a ".".
Proof. simpl. destruct s; apply andb_true_r. Qed.

Lemma genSplit_dot_join (s cur : string) :
  joinWith "." (strings.genSplit s "." 0 cur) = strings.rev cur +:+ s.
Proof.
  revert cur. induction s as [|a s IH]; intros cur.
  - simpl. now rewrite append_nil_r.
  - cbn [strings.genSplit]. rewrite HasPrefix_dot.
    destruct (Ascii.eqb a ".") eqn:Ha.
    + apply Ascii.eqb_eq in Ha. subst a.
      rewrite joinWith_cons by apply genSplit_nonempty.
      simpl String.length. simpl Nat.sub. rewrite IH. reflexivity.
    + rewrite IH, rev_cons, append_assoc. reflexivity.
Qed.

Lemma genSplit_dot_length (s cur : string) :
  List.length (strings.genSplit s "." 0 cur) = S (countByte s ".").
Proof.
  revert cur. induction s as [|a s IH]; intros cur; [reflexivity |].
  cbn [strings.genSplit countByte]. rewrite HasPrefix_dot.
  destruct (Ascii.eqb a "."); simpl; now rewrite IH.
Qed.

Lemma occursIn_snoc (c a : ascii) (s : string) :
  occursIn c (s +:+ String a "") <-> occursIn c s \/ a = c.
Proof.
  induction s as [|b s IH]; simpl.
  - rewrite occursIn_cons. pose proof (occursIn_nil c). tauto.
  - rewrite !occursIn_cons, IH. tauto.
Qed.

Lemma genSplit_dot_free (s cur : string) :
  ~ occursIn "." (strings.rev cur) ->
  Forall (fun l => ~ occursIn "." l) (strings.genSplit s "." 0 cur).
Proof.
  revert cur. induction s as [|a s IH]; intros cur Hcur.
  - now constructor.
  - cbn [strings.genSplit]. rewrite HasPrefix_dot.
    destruct (Ascii.eqb a ".") eqn:Ha.
    + constructor; [assumption |]. apply IH. apply occursIn_nil.
    + apply IH. rewrite rev_cons, occursIn_snoc.
      apply Ascii.eqb_neq in Ha. tauto.
Qed.

(** C9. For every string, isSubDomain splits it on the dot and answers
    true exactly when there are more than two labels.  The labels are the
    dot-free pieces that, joined by dots, give the string back; there is
    one more of them than there are dots.  The function is total. *)
Theorem isSubDomain_spec (domain : string) :
  let labels := strings.Split domain "." in
  (isSubDomain domain = true <-> (2 < List.length labels)%nat)
  /\ joinWith "." labels = domain
  /\ Forall (fun l => ~ occursIn "." l) labels
  /\ List.length labels = S (countByte domain ".").
Proof.
  intros labels. unfold labels, isSubDomain, strings.Split. repeat split.
  - intros H. apply Z.gtb_lt in H. lia.
  - intros H. apply Z.gtb_lt. lia.
  - apply genSplit_dot_join.
  - apply genSplit_dot_free. apply occursIn_nil.
  - apply genSplit_dot_length.
Qed.

Lemma isSubDomain_spec_witness :
  isSubDomain "a.b.c" = true <-> (2 < List.length (strings.Split "a.b.c" "."))%nat.
Proof. exact (proj1 (isSubDomain_spec "a.b.c")). Defined.

Example isSubDomain_examples :
  isSubDomain "a.b.c" = true /\ isSubDomain "a.b" = false /\ isSubDomain "a" = false.
Proof. repeat split. Qed.

End SubDomain.

(** ** Rounding to binary64 *)

Section Float64Facts.
Import float64.
Local Open Scope Q_scope.

Lemma two_neq_0 : ~ 2 == 0.
Proof. discriminate. Qed.

Lemma pow2_pos (k : Z) : 0 < pow2 k.
Proof. apply Qpower_0_lt. reflexivity. Qed.

Lemma pow2_add (a b : Z) : pow2 (a + b) == pow2 a * pow2 b.
Proof. apply Qpower_plus, two_neq_0. Qed.

Lemma pow2_le (a b : Z) : (a <= b)%Z -> pow2 a <= pow2 b.
Proof. intros H. apply Qpower_le_compat_l; [exact H | discriminate]. Qed.

Lemma pow2_inject (k : Z) : (0 <= k)%Z -> pow2 k == inject_Z (2 ^ k).
Proof. intros H. unfold pow2. now rewrite Zpower_Qpower. Qed.

Lemma pow2_le_inv (a b : Z) : pow2 a < pow2 (b + 1) -> (a <= b)%Z.
Proof.
  intros H. destruct (Z_le_gt_dec a b) as [Hle | Hgt]; [exact Hle | exfalso].
  assert (pow2 (b + 1) <= pow2 a) by (apply pow2_le; lia). lra.
Qed.

Lemma Q_as_div (x : Q) : x == inject_Z (Qnum x) / inject_Z (Zpos (Qden x)).
Proof. destruct x as [n d]. simpl. apply Qmake_Qdiv. Qed.

Lemma log2_bounds (n : Z) :
  (0 < n)%Z ->
  pow2 (Z.log2 n) <= inject_Z n /\ inject_Z n < 2 * pow2 (Z.log2 n).
Proof.
  intros Hn. pose proof (Z.log2_spec n Hn) as [Hlo Hhi].
  pose proof (Z.log2_nonneg n) as Hnn.
  rewrite pow2_inject by exact Hnn. split.
  - rewrite <- Zle_Qle. exact Hlo.
  - change 2 with (inject_Z 2). rewrite <- inject_Z_mult, <- Zlt_Qlt.
    rewrite Z.pow_succ_r in Hhi by exact Hnn. exact Hhi.
Qed.

Lemma ilog2_spec (x : Q) :
  0 < x -> pow2 (ilog2 x) <= x /\ x < pow2 (ilog2 x + 1).
Proof.
  intros Hx.
  assert (Hn : (0 < Qnum x)%Z).
  { destruct x as [n d]. unfold Qlt in Hx. simpl in *. lia. }
  destruct (log2_bounds (Qnum x) Hn) as [HNlo HNhi].
  destruct (log2_bounds (Zpos (Qden x)) eq_refl) as [HDlo HDhi].
  set (a := Z.log2 (Qnum x)) in *. set (b := Z.log2 (Zpos (Qden x))) in *.
  pose proof (pow2_pos a) as HA. pose proof (pow2_pos b) as HB.
  assert (Hk : pow2 (a - b) * pow2 b == pow2 a).
  { rewrite <- pow2_add. now replace (a - b + b)%Z with a by lia. }
  assert (Hk1 : pow2 (a - b + 1) == 2 * pow2 (a - b)).
  { rewrite pow2_add. unfold pow2 at 2. simpl. lra. }
  assert (Hk2 : 2 * pow2 (a - b - 1) == pow2 (a - b)).
  { replace (a - b)%Z with ((a - b - 1) + 1)%Z at 2 by lia.
    rewrite pow2_add. unfold pow2 at 3. simpl. lra. }
  pose proof (pow2_pos (a - b)) as HK.
  pose proof (Q_as_div x) as Hxd.
  set (N := inject_Z (Qnum x)) in *. set (D := inject_Z (Zpos (Qden x))) in *.
  assert (HD : 0 < D) by lra.
  assert (HxD : x * D == N).
  { rewrite Hxd. field. lra. }
  unfold ilog2. fold a b.
  destruct (Qle_bool (pow2 (a - b)) x) eqn:Hle.
  - apply Qle_bool_iff in Hle. split; [exact Hle |].
    rewrite Hk1. nra.
  - assert (Hlt : x < pow2 (a - b)).
    { apply Qnot_le_lt. intros H. apply Qle_bool_iff in H. congruence. }
    replace (a - b - 1 + 1)%Z with (a - b)%Z by lia.
    split; [| exact Hlt]. nra.
Qed.


Lemma roundHalfEven_range (x : Q) :
  (Qfloor x <= roundHalfEven x <= Qfloor x + 1)%Z.
Proof.
  unfold roundHalfEven.
  destruct (x - inject_Z (Qfloor x) ?= 1 # 2); [destruct (Z.even _) | |]; lia.
Qed.

Lemma roundHalfEven_mono (x y : Q) :
  x <= y -> (roundHalfEven x <= roundHalfEven y)%Z.
Proof.
  intros Hxy.
  pose proof (Qfloor_resp_le x y Hxy) as Hfl.
  pose proof (roundHalfEven_range x) as Hx. pose proof (roundHalfEven_range y) as Hy.
  destruct (Z.eq_dec (Qfloor x) (Qfloor y)) as [Heq | Hne]; [| lia].
  unfold roundHalfEven in *. rewrite <- Heq in *.
  destruct (Qcompare_spec (x - inject_Z (Qfloor x)) (1 # 2)) as [Cx | Cx | Cx];
    destruct (Qcompare_spec (y - inject_Z (Qfloor x)) (1 # 2)) as [Cy | Cy | Cy];
    destruct (Z.even (Qfloor x));
    try lia; exfalso; lra.
Qed.

Lemma roundHalfEven_int (n : Z) : roundHalfEven (inject_Z n) = n.
Proof.
  unfold roundHalfEven. rewrite Qfloor_Z.
  destruct (Qcompare_spec (inject_Z n - inject_Z n) (1 # 2)) as [C | C | C];
    [exfalso; lra | reflexivity | exfalso; lra].
Qed.

Lemma roundHalfEven_eq (x y : Q) : x == y -> roundHalfEven x = roundHalfEven y.
Proof.
  intros H. apply Z.le_antisymm; apply roundHalfEven_mono; lra.
Qed.

(** The scaled significand of a positive [x] lies in [2^52, 2^53]. *)
Lemma significand_range (x : Q) :
  0 < x ->
  (2 ^ 52 <= roundHalfEven (x / pow2 (ilog2 x - 52)) <= 2 ^ 53)%Z.
Proof.
  intros Hx. destruct (ilog2_spec x Hx) as [Hlo Hhi].
  set (e := ilog2 x) in *.
  pose proof (pow2_pos (e - 52)) as Hu.
  assert (H52 : pow2 e == inject_Z (2 ^ 52) * pow2 (e - 52)).
  { rewrite <- (pow2_inject 52) by lia. rewrite <- pow2_add.
    now replace (52 + (e - 52))%Z with e by lia. }
  assert (H53 : pow2 (e + 1) == inject_Z (2 ^ 53) * pow2 (e - 52)).
  { rewrite <- (pow2_inject 53) by lia. rewrite <- pow2_add.
    now replace (53 + (e - 52))%Z with (e + 1)%Z by lia. }
  split.
  - rewrite <- (roundHalfEven_int (2 ^ 52)). apply roundHalfEven_mono.
    apply Qle_shift_div_l; [exact Hu | lra].
  - rewrite <- (roundHalfEven_int (2 ^ 53)). apply roundHalfEven_mono.
    apply Qle_shift_div_r; [exact Hu | lra].
Qed.

Lemma roundPos_eq (x : Q) :
  roundPos x == inject_Z (roundHalfEven (x / pow2 (ilog2 x - 52))) * pow2 (ilog2 x - 52).
Proof. unfold roundPos. apply Qred_correct. Qed.

Lemma roundPos_bounds (x : Q) :
  0 < x -> pow2 (ilog2 x) <= roundPos x /\ roundPos x <= pow2 (ilog2 x + 1).
Proof.
  intros Hx. rewrite roundPos_eq.
  pose proof (significand_range x Hx) as [Hlo Hhi].
  set (e := ilog2 x) in *. set (m := roundHalfEven (x / pow2 (e - 52))) in *.
  pose proof (pow2_pos (e - 52)) as Hu.
  assert (H52 : pow2 e == inject_Z (2 ^ 52) * pow2 (e - 52)).
  { rewrite <- (pow2_inject 52) by lia. rewrite <- pow2_add.
    now replace (52 + (e - 52))%Z with e by lia. }
  assert (H53 : pow2 (e + 1) == inject_Z (2 ^ 53) * pow2 (e - 52)).
  { rewrite <- (pow2_inject 53) by lia. rewrite <- pow2_add.
    now replace (53 + (e - 52))%Z with (e + 1)%Z by lia. }
  rewrite H52, H53. rewrite Zle_Qle in Hlo, Hhi. split; nra.
Qed.

Lemma ilog2_mono (x y : Q) : 0 < x -> x <= y -> (ilog2 x <= ilog2 y)%Z.
Proof.
  intros Hx Hxy.
  destruct (ilog2_spec x Hx) as [Hxlo _].
  destruct (ilog2_spec y) as [_ Hyhi]; [lra |].
  apply pow2_le_inv. lra.
Qed.

Lemma roundPos_mono (x y : Q) : 0 < x -> x <= y -> roundPos x <= roundPos y.
Proof.
  intros Hx Hxy.
  assert (Hy : 0 < y) by lra.
  pose proof (ilog2_mono x y Hx Hxy) as He.
  destruct (Z.eq_dec (ilog2 x) (ilog2 y)) as [Heq | Hne].
  - rewrite !roundPos_eq, Heq.
    pose proof (pow2_pos (ilog2 y - 52)) as Hu.
    assert (Hm : (roundHalfEven (x / pow2 (ilog2 y - 52))
                  <= roundHalfEven (y / pow2 (ilog2 y - 52)))%Z).
    { apply roundHalfEven_mono. apply Qmult_le_compat_r; [exact Hxy |].
      apply Qlt_le_weak, Qinv_lt_0_compat, Hu. }
    rewrite Zle_Qle in Hm. nra.
  - destruct (roundPos_bounds x Hx) as [_ Hxhi].
    destruct (roundPos_bounds y Hy) as [Hylo _].
    assert (pow2 (ilog2 x + 1) <= pow2 (ilog2 y)) by (apply pow2_le; lia).
    lra.
Qed.

Lemma roundPos_pos (x : Q) : 0 < x -> 0 < roundPos x.
Proof.
  intros Hx. destruct (roundPos_bounds x Hx) as [Hlo _].
  pose proof (pow2_pos (ilog2 x)). lra.
Qed.

Lemma round_pos (x : Q) : 0 < x -> round x = roundPos x.
Proof.
  intros H. unfold round.
  destruct (Qcompare_spec x 0) as [C | C | C]; [exfalso; lra | exfalso; lra | reflexivity].
Qed.

Lemma round_neg (x : Q) : x < 0 -> round x = - roundPos (- x).
Proof.
  intros H. unfold round.
  destruct (Qcompare_spec x 0) as [C | C | C]; [exfalso; lra | reflexivity | exfalso; lra].
Qed.

Lemma round_zero (x : Q) : x == 0 -> round x = 0.
Proof.
  intros H. unfold round.
  destruct (Qcompare_spec x 0) as [C | C | C]; [reflexivity | exfalso; lra | exfalso; lra].
Qed.

(** Rounding is monotone. *)
Lemma round_mono (x y : Q) : x <= y -> round x <= round y.
Proof.
  intros Hxy.
  destruct (Q_dec x 0) as [[Hx | Hx] | Hx]; destruct (Q_dec y 0) as [[Hy | Hy] | Hy];
    try (exfalso; lra).
  - rewrite (round_neg x Hx), (round_neg y Hy).
    assert (roundPos (- y) <= roundPos (- x)) by (apply roundPos_mono; lra). lra.
  - rewrite (round_neg x Hx), (round_pos y Hy).
    assert (0 < roundPos (- x)) by (apply roundPos_pos; lra).
    assert (0 < roundPos y) by (apply roundPos_pos; lra). lra.
  - rewrite (round_neg x Hx), (round_zero y Hy).
    assert (0 < roundPos (- x)) by (apply roundPos_pos; lra). lra.
  - rewrite (round_pos x Hx), (round_pos y Hy). now apply roundPos_mono.
  - rewrite (round_zero x Hx), (round_pos y Hy).
    assert (0 < roundPos y) by (apply roundPos_pos; lra). lra.
  - rewrite (round_zero x Hx), (round_zero y Hy). lra.
Qed.

Lemma round_eq (x y : Q) : x == y -> round x == round y.
Proof. intros H. apply Qle_antisym; apply round_mono; lra. Qed.


Lemma roundPos_compat (x y : Q) : 0 < x -> x == y -> roundPos x == roundPos y.
Proof. intros Hx H. apply Qle_antisym; apply roundPos_mono; lra. Qed.

Lemma roundPos_int (n : Z) :
  (0 < n < 2 ^ 53)%Z -> roundPos (inject_Z n) == inject_Z n.
Proof.
  intros [Hn0 Hn].
  assert (Hx : 0 < inject_Z n) by (change 0 with (inject_Z 0); now rewrite <- Zlt_Qlt).
  destruct (ilog2_spec _ Hx) as [Hlo Hhi].
  set (e := ilog2 (inject_Z n)) in *.
  assert (He : (0 <= e <= 52)%Z).
  { split.
    - apply pow2_le_inv.
      assert (pow2 0 <= inject_Z n).
      { rewrite pow2_inject by lia. rewrite <- Zle_Qle. simpl. lia. }
      lra.
    - apply pow2_le_inv.
      assert (inject_Z n < pow2 (52 + 1)).
      { rewrite pow2_inject by lia. now rewrite <- Zlt_Qlt. }
      lra. }
  rewrite roundPos_eq. fold e.
  pose proof (pow2_pos (e - 52)) as Hu.
  assert (Hinv : pow2 (52 - e) * pow2 (e - 52) == 1).
  { rewrite <- pow2_add. now replace (52 - e + (e - 52))%Z with 0%Z by lia. }
  assert (Hs : inject_Z n / pow2 (e - 52) == inject_Z (n * 2 ^ (52 - e))).
  { rewrite inject_Z_mult, <- pow2_inject by lia.
    apply Qmult_inj_r with (z := pow2 (e - 52)); [lra |].
    rewrite <- Qmult_assoc, Hinv. field. lra. }
  rewrite (roundHalfEven_eq _ _ Hs), roundHalfEven_int.
  rewrite inject_Z_mult, <- pow2_inject by lia.
  rewrite <- Qmult_assoc, Hinv. lra.
Qed.

(** Integers below 2^53 in magnitude are binary64 values. *)
Lemma ofInt_exact (n : Z) : (- 2 ^ 53 < n < 2 ^ 53)%Z -> ofInt n == inject_Z n.
Proof.
  intros Hn. unfold ofInt.
  destruct (Z.lt_trichotomy n 0) as [Hneg | [-> | Hpos]].
  - assert (Hx : inject_Z n < 0) by (change 0 with (inject_Z 0); now rewrite <- Zlt_Qlt).
    rewrite (round_neg _ Hx).
    assert (Hy : - inject_Z n == inject_Z (- n)) by (now rewrite inject_Z_opp).
    assert (Hp : 0 < - inject_Z n) by lra.
    rewrite (roundPos_compat _ _ Hp Hy), roundPos_int by lia.
    rewrite inject_Z_opp. lra.
  - reflexivity.
  - assert (Hx : 0 < inject_Z n) by (change 0 with (inject_Z 0); now rewrite <- Zlt_Qlt).
    rewrite (round_pos _ Hx). apply roundPos_int. lia.
Qed.

Lemma toInt_nonneg (x : Q) : 0 <= x -> toInt x = Qfloor x.
Proof.
  intros Hx. destruct x as [n d]. unfold toInt, Qfloor. simpl.
  apply Z.quot_div_nonneg; [| lia].
  unfold Qle in Hx. simpl in Hx. lia.
Qed.

Lemma toInt_nonpos (x : Q) : x <= 0 -> toInt x = (- Qfloor (- x))%Z.
Proof.
  intros Hx. destruct x as [n d]. unfold toInt, Qfloor. simpl.
  assert (Hn : (n <= 0)%Z) by (unfold Qle in Hx; simpl in Hx; lia).
  rewrite <- (Z.opp_involutive n) at 1.
  rewrite Z.quot_opp_l by lia.
  rewrite Z.quot_div_nonneg by lia. reflexivity.
Qed.

Lemma toInt_mono (x y : Q) : x <= y -> (toInt x <= toInt y)%Z.
Proof.
  intros Hxy.
  destruct (Qlt_le_dec x 0) as [Hx | Hx]; destruct (Qlt_le_dec y 0) as [Hy | Hy].
  - rewrite !toInt_nonpos by lra.
    assert ((Qfloor (- y) <= Qfloor (- x))%Z) by (apply Qfloor_resp_le; lra). lia.
  - rewrite toInt_nonpos, (toInt_nonneg y) by lra.
    assert ((Qfloor 0 <= Qfloor (- x))%Z) by (apply Qfloor_resp_le; lra).
    assert ((Qfloor 0 <= Qfloor y)%Z) by (apply Qfloor_resp_le; lra).
    change (Qfloor 0) with 0%Z in *. lia.
  - exfalso. lra.
  - rewrite !toInt_nonneg by lra. now apply Qfloor_resp_le.
Qed.

End Float64Facts.

Section DayCount.
Import float64.
Local Open Scope Q_scope.

(** The fraction [float64(nsec)/(60*60*1e9)] of [Hours]. *)
Lemma hourFraction_eq (n : Z) :
  (- time.Hour < n < time.Hour)%Z ->
  div (ofInt n) (ofInt (60 * 60 * 1000000000)) == round (inject_Z n / inject_Z time.Hour).
Proof.
  intros Hn. unfold div. apply round_eq.
  rewrite ofInt_exact by (unfold time.Hour, time.Minute, time.Second, time.Millisecond,
                           time.Microsecond, time.Nanosecond in Hn; lia).
  rewrite ofInt_exact by lia. reflexivity.
Qed.

Lemma round_one : round 1 == 1.
Proof. reflexivity. Qed.

Lemma round_minus_one : round (- (1)) == - (1).
Proof. reflexivity. Qed.

Lemma Hour_pos : 0 < inject_Z time.Hour.
Proof. reflexivity. Qed.

Lemma hourFraction_nonneg (n : Z) :
  (0 <= n < time.Hour)%Z ->
  0 <= round (inject_Z n / inject_Z time.Hour) <= 1.
Proof.
  intros [H0 H1]. rewrite Zle_Qle in H0. rewrite Zlt_Qlt in H1.
  change (inject_Z 0) with 0 in H0.
  pose proof Hour_pos as HH.
  split.
  - apply Qle_trans with (round 0); [apply Qle_refl |]. apply round_mono.
    apply Qle_shift_div_l; [exact HH | lra].
  - rewrite <- round_one. apply round_mono.
    apply Qle_shift_div_r; [exact HH | lra].
Qed.

Lemma hourFraction_nonpos (n : Z) :
  (- time.Hour < n <= 0)%Z ->
  - (1) <= round (inject_Z n / inject_Z time.Hour) <= 0.
Proof.
  intros [H0 H1]. rewrite Zlt_Qlt in H0. rewrite Zle_Qle in H1.
  rewrite inject_Z_opp in H0. change (inject_Z 0) with 0 in H1.
  pose proof Hour_pos as HH.
  split.
  - rewrite <- round_minus_one. apply round_mono.
    apply Qle_shift_div_l; [exact HH | lra].
  - apply Qle_trans with (round 0); [| apply Qle_refl]. apply round_mono.
    apply Qle_shift_div_r; [exact HH | lra].
Qed.

(** Go's integer division and remainder by [Hour]. *)
Lemma quot_rem_Hour (d : Z) :
  (d = 3600000000000 * Z.quot d time.Hour + Z.rem d time.Hour
   /\ (0 <= d -> 0 <= Z.rem d time.Hour < 3600000000000)
   /\ (d <= 0 -> - 3600000000000 < Z.rem d time.Hour <= 0))%Z.
Proof.
  change time.Hour with 3600000000000%Z. split; [apply Z.quot_rem' |]. split; intros H.
  - apply Z.rem_bound_pos; lia.
  - pose proof (Z.rem_bound_pos_neg d 3600000000000 eq_refl H). lia.
Qed.

Lemma Hours_eq (d : Z) :
  inRange d ->
  time.Hours d ==
    round (inject_Z (Z.quot d time.Hour)
           + round (inject_Z (Z.rem d time.Hour) / inject_Z time.Hour)).
Proof.
  intros Hd. unfold time.Hours, add. apply round_eq.
  unfold inRange, time.minDuration, time.maxDuration in Hd.
  destruct (quot_rem_Hour d) as (Hqr & Hpos & Hneg).
  assert (Hn : (- time.Hour < Z.rem d time.Hour < time.Hour)%Z).
  { change time.Hour with 3600000000000%Z in *. lia. }
  assert (Hh : (- 2 ^ 53 < Z.quot d time.Hour < 2 ^ 53)%Z).
  { change time.Hour with 3600000000000%Z in *. lia. }
  rewrite (hourFraction_eq _ Hn), (ofInt_exact _ Hh).
  reflexivity.
Qed.

Lemma Hours_mono (d1 d2 : Z) :
  inRange d1 -> inRange d2 -> (d1 <= d2)%Z -> time.Hours d1 <= time.Hours d2.
Proof.
  intros H1 H2 Hle. rewrite (Hours_eq d1 H1), (Hours_eq d2 H2).
  apply round_mono.
  destruct (quot_rem_Hour d1) as (Hqr1 & Hpos1 & Hneg1).
  destruct (quot_rem_Hour d2) as (Hqr2 & Hpos2 & Hneg2).
  set (h1 := Z.quot d1 time.Hour) in *. set (h2 := Z.quot d2 time.Hour) in *.
  set (n1 := Z.rem d1 time.Hour) in *. set (n2 := Z.rem d2 time.Hour) in *.
  assert (HH : time.Hour = 3600000000000%Z) by reflexivity.
  assert (Hh : (h1 <= h2)%Z) by (apply Z.quot_le_mono; [reflexivity | exact Hle]).
  destruct (Z.eq_dec h1 h2) as [Heq | Hne].
  - rewrite Heq.
    assert (Hn : (n1 <= n2)%Z) by lia.
    assert (round (inject_Z n1 / inject_Z time.Hour)
            <= round (inject_Z n2 / inject_Z time.Hour)).
    { apply round_mono. apply Qmult_le_compat_r.
      - now rewrite <- Zle_Qle.
      - apply Qlt_le_weak, Qinv_lt_0_compat, Hour_pos. }
    lra.
  - assert (Hlt : (h1 + 1 <= h2)%Z) by lia.
    rewrite Zle_Qle, inject_Z_plus in Hlt. change (inject_Z 1) with 1 in Hlt.
    destruct (Z_le_gt_dec 0 d2) as [Hd2 | Hd2].
    + assert (F2 : (0 <= n2 < time.Hour)%Z) by (rewrite HH; lia).
      apply hourFraction_nonneg in F2.
      destruct (Z_le_gt_dec 0 d1) as [Hd1 | Hd1].
      * assert (F1 : (0 <= n1 < time.Hour)%Z) by (rewrite HH; lia).
        apply hourFraction_nonneg in F1. lra.
      * assert (F1 : (- time.Hour < n1 <= 0)%Z) by (rewrite HH; lia).
        apply hourFraction_nonpos in F1. lra.
    + assert (F2 : (- time.Hour < n2 <= 0)%Z) by (rewrite HH; lia).
      apply hourFraction_nonpos in F2.
      assert (F1 : (- time.Hour < n1 <= 0)%Z) by (rewrite HH; lia).
      apply hourFraction_nonpos in F1. lra.
Qed.

Lemma days_mono (d1 d2 : Z) :
  inRange d1 -> inRange d2 -> (d1 <= d2)%Z ->
  (toInt (div (time.Hours d1) (ofInt 24)) <= toInt (div (time.Hours d2) (ofInt 24)))%Z.
Proof.
  intros H1 H2 Hle. apply toInt_mono. unfold div. apply round_mono.
  apply Qmult_le_compat_r; [now apply Hours_mono |].
  apply Qlt_le_weak, Qinv_lt_0_compat. reflexivity.
Qed.

Lemma Sub_inRange (t u : Z) : inRange (time.Sub t u).
Proof.
  unfold inRange, time.Sub.
  destruct (Z.ltb_spec (t - u) time.minDuration);
    [| destruct (Z.ltb_spec time.maxDuration (t - u))];
    unfold time.minDuration, time.maxDuration in *; lia.
Qed.

End DayCount.

(** ** The day count *)

Section DayGate.

Lemma Sub_ge (t u x : Z) : x <= time.maxDuration -> x <= t - u -> x <= time.Sub t u.
Proof.
  unfold time.Sub. intros Hx H.
  destruct (Z.ltb_spec (t - u) time.minDuration); [lia |].
  destruct (Z.ltb_spec time.maxDuration (t - u)); lia.
Qed.

Lemma Sub_le (t u x : Z) : time.minDuration <= x -> t - u <= x -> time.Sub t u <= x.
Proof.
  unfold time.Sub. intros Hx H.
  destruct (Z.ltb_spec (t - u) time.minDuration); [lia |].
  destruct (Z.ltb_spec time.maxDuration (t - u)); lia.
Qed.

Lemma days_at_45 : float64.toInt (float64.div (time.Hours (45 * 24 * time.Hour)) (float64.ofInt 24)) = 45.
Proof. vm_compute. reflexivity. Qed.

Lemma days_below_46 :
  float64.toInt (float64.div (time.Hours (46 * 24 * time.Hour - 1)) (float64.ofInt 24)) = 45.
Proof. vm_compute. reflexivity. Qed.

Lemma days_at_46 : float64.toInt (float64.div (time.Hours (46 * 24 * time.Hour)) (float64.ofInt 24)) = 46.
Proof. vm_compute. reflexivity. Qed.

Lemma inRange_const (x : Z) :
  (time.minDuration <=? x) && (x <=? time.maxDuration) = true -> inRange x.
Proof. unfold inRange. rewrite andb_true_iff, !Z.leb_le. tauto. Qed.

Lemma expTimeDays_lower (expTime now : Z) :
  46 * 24 * time.Hour <= expTime - now -> 46 <= expTimeDays expTime now.
Proof.
  intros H. unfold expTimeDays. rewrite <- days_at_46.
  apply days_mono; [now apply inRange_const | apply Sub_inRange |].
  apply Sub_ge; [vm_compute; discriminate | exact H].
Qed.

Lemma expTimeDays_upper (expTime now : Z) :
  expTime - now < 46 * 24 * time.Hour -> expTimeDays expTime now <= 45.
Proof.
  intros H. unfold expTimeDays. rewrite <- days_below_46.
  apply days_mono; [apply Sub_inRange | now apply inRange_const |].
  apply Sub_le; [vm_compute; discriminate | lia].
Qed.

Lemma expTimeDays_45 (expTime now : Z) :
  45 * 24 * time.Hour <= expTime - now -> 45 <= expTimeDays expTime now.
Proof.
  intros H. unfold expTimeDays. rewrite <- days_at_45.
  apply days_mono; [now apply inRange_const | apply Sub_inRange |].
  apply Sub_ge; [vm_compute; discriminate | exact H].
Qed.

End DayGate.

(** On the sample durations the rounding above gives the results of the
    Standard Library's IEEE 754 operations. *)
Example days_agree_with_ieee754 : forallb ieee754.agrees ieee754.samples = true.
Proof. vm_compute. reflexivity. Qed.

(** The conversion to [int] truncates toward zero, and the rounding of the
    hours shows far from the gate: one nanosecond short of 171 days counts
    as 171 days. *)
Example expTimeDays_examples :
  expTimeDays (june2016 + 45 * day + 23 * time.Hour) june2016 = 45
  /\ expTimeDays (june2016 - 36 * time.Hour) june2016 = -1
  /\ expTimeDays (june2016 + 171 * day - 1) june2016 = 171
  /\ expTimeDays time.zero june2016 = -106751.
Proof. repeat split; vm_compute; reflexivity. Qed.

(** ** The renewal orchestrator *)

Section Renewal.

Variable acmeServer : string.

(** Past a good read of the certificate, a day count above the limit
    ends the run after three calls. *)
Lemma renewCerts_refuses (w : World) (certsDir email : string) (certBytes : bytes) :
  readable w (filepath.Join certsDir "public.crt") certBytes ->
  let pem := answer w _ (acme_GetPEMCertExpiration certBytes) in
  let tnow := answer w _ time_Now in
  let days := expTimeDays (fst pem) tnow in
  renewDaysLimit < days ->
  run (renewCerts acmeServer certsDir email) w =
    ((CertificateResource_zero, Some (notYetDue days)), w,
     [Called (ioutil_ReadFile (filepath.Join certsDir "public.crt")) (certBytes, None);
      Called (acme_GetPEMCertExpiration certBytes) pem;
      Called time_Now tnow]).
Proof.
  intros Hread. cbv zeta. unfold readable in Hread.
  unfold renewCerts, loadCert. exec. rewrite Hread. exec.
  destruct (answer w _ (acme_GetPEMCertExpiration certBytes)) as [expTime perr].
  exec. intros Hdays. apply Z.gtb_lt in Hdays. rewrite Hdays. reflexivity.
Qed.

(** A day count within the limit lets the run go on to the key
    generation, whatever [acme.GetPEMCertExpiration] said of errors. *)
Lemma renewCerts_proceeds (w : World) (certsDir email : string) (certBytes : bytes) :
  readable w (filepath.Join certsDir "public.crt") certBytes ->
  let pem := answer w _ (acme_GetPEMCertExpiration certBytes) in
  let tnow := answer w _ time_Now in
  expTimeDays (fst pem) tnow <= renewDaysLimit ->
  exists rest,
    trace (run (renewCerts acmeServer certsDir email) w) =
      [Called (ioutil_ReadFile (filepath.Join certsDir "public.crt")) (certBytes, None);
       Called (acme_GetPEMCertExpiration certBytes) pem;
       Called time_Now tnow;
       Called (rsa_GenerateKey 2048) (answer w _ (rsa_GenerateKey 2048))] ++ rest.
Proof.
  intros Hread. cbv zeta. unfold readable in Hread.
  unfold renewCerts, loadCert, trace. exec. rewrite Hread. exec.
  destruct (answer w _ (acme_GetPEMCertExpiration certBytes)) as [expTime perr].
  exec. intros Hdays.
  replace (expTimeDays expTime (answer w _ time_Now) >? renewDaysLimit) with false
    by (symmetry; rewrite Z.gtb_ltb; apply Z.ltb_ge; exact Hdays).
  exec. eexists. reflexivity.
Qed.

(** When the key generation, the client construction and the load of the
    metadata succeed as well, the renewal is requested for the metadata
    with the certificate just read, bundled, and its outcome returned. *)
Lemma renewCerts_renews (w : World) (certsDir email : string)
    (certBytes metaBytes : bytes) (privateKey : rsaPrivateKey) (client : acmeClient)
    (certMeta : CertificateResource) :
  readable w (filepath.Join certsDir "public.crt") certBytes ->
  let pem := answer w _ (acme_GetPEMCertExpiration certBytes) in
  let tnow := answer w _ time_Now in
  expTimeDays (fst pem) tnow <= renewDaysLimit ->
  answer w _ (rsa_GenerateKey 2048) = (privateKey, None) ->
  let user := {| Email := email; Registration := None; key := privateKey |} in
  answer w _ (acme_NewClient acmeServer user RSA2048) = (client, None) ->
  readable w (filepath.Join certsDir "certs.json") metaBytes ->
  answer w _ (json_Unmarshal metaBytes) = (certMeta, None) ->
  let request := client_RenewCertificate client (set_Certificate certMeta certBytes) true in
  let renewed := answer w _ request in
  run (renewCerts acmeServer certsDir email) w =
    (match snd renewed with
     | Some e => (CertificateResource_zero, Some e)
     | None => (fst renewed, None)
     end, w,
     [Called (ioutil_ReadFile (filepath.Join certsDir "public.crt")) (certBytes, None);
      Called (acme_GetPEMCertExpiration certBytes) pem;
      Called time_Now tnow;
      Called (rsa_GenerateKey 2048) (privateKey, None);
      Called (acme_NewClient acmeServer user RSA2048) (client, None);
      Called (client_ExcludeChallenges client [DNS01])
             (answer w _ (client_ExcludeChallenges client [DNS01]));
      Called (ioutil_ReadFile (filepath.Join certsDir "certs.json")) (metaBytes, None);
      Called (json_Unmarshal metaBytes) (certMeta, None);
      Called request renewed]).
Proof.
  intros Hread. cbv zeta. unfold readable in *. intros Hdays Hkey Hclient Hmeta Hjson.
  unfold renewCerts, loadCert, loadCertMeta. exec. rewrite Hread. exec.
  destruct (answer w _ (acme_GetPEMCertExpiration certBytes)) as [expTime perr].
  exec. simpl in Hdays.
  replace (expTimeDays expTime (answer w _ time_Now) >? renewDaysLimit) with false
    by (symmetry; rewrite Z.gtb_ltb; apply Z.ltb_ge; exact Hdays).
  exec. rewrite Hkey. exec. rewrite Hclient. exec. rewrite Hmeta. exec.
  rewrite Hjson. exec.
  destruct (answer w _ (client_RenewCertificate client (set_Certificate certMeta certBytes) true))
    as [newCertificates [e |]]; reflexivity.
Qed.

(** No run of renewCerts registers or accepts the agreement. *)
Lemma renewCerts_no_registration (w : World) (certsDir email : string) :
  existsb isRegistration (trace (run (renewCerts acmeServer certsDir email) w)) = false.
Proof.
  unfold renewCerts, loadCert, loadCertMeta, trace. exec.
  answer_cases; try reflexivity.
  all: destruct (expTimeDays _ _ >? renewDaysLimit); exec; answer_cases; reflexivity.
Qed.

(** Whatever error [acme.GetPEMCertExpiration] returns with the zero time,
    at any moment after the zero time the run goes on to generate a key. *)
Lemma renewCerts_ignores_expiration_error (w : World) (certsDir email : string)
    (certBytes : bytes) (e : error) :
  readable w (filepath.Join certsDir "public.crt") certBytes ->
  answer w _ (acme_GetPEMCertExpiration certBytes) = (time.zero, Some e) ->
  time.zero <= answer w _ time_Now ->
  exists rest,
    trace (run (renewCerts acmeServer certsDir email) w) =
      [Called (ioutil_ReadFile (filepath.Join certsDir "public.crt")) (certBytes, None);
       Called (acme_GetPEMCertExpiration certBytes) (time.zero, Some e);
       Called time_Now (answer w _ time_Now);
       Called (rsa_GenerateKey 2048) (answer w _ (rsa_GenerateKey 2048))] ++ rest.
Proof.
  intros Hread Hpem Hnow.
  pose proof (renewCerts_proceeds w certsDir email certBytes Hread) as Hrun.
  cbv zeta in Hrun. rewrite Hpem in Hrun. apply Hrun. simpl fst.
  pose proof (expTimeDays_upper time.zero (answer w _ time_Now)) as Hup.
  unfold renewDaysLimit. apply Hup. unfold time.zero in *.
  change (46 * 24 * time.Hour) with 3974400000000000. lia.
Qed.

(** C3. Once the certificate is loaded: when its days until expiry exceed
    45, renewCerts returns the not-yet-due error, which reports the day
    count, after three calls (the read of the certificate, the extraction
    of its expiration and the clock) and none to the key generator, the
    client constructor or the CA, and leaves the world as it was; when they
    are 45 or fewer, the next call is the key generation, and once that,
    the client construction and the load of the metadata succeed, the
    bundled renewal is requested and its outcome returned. *)
Theorem renewCerts_policy_gate (w : World) (certsDir email : string) (certBytes : bytes) :
  readable w (filepath.Join certsDir "public.crt") certBytes ->
  let pem := answer w _ (acme_GetPEMCertExpiration certBytes) in
  let tnow := answer w _ time_Now in
  let days := expTimeDays (fst pem) tnow in
  let r := run (renewCerts acmeServer certsDir email) w in
  let gate :=
    [Called (ioutil_ReadFile (filepath.Join certsDir "public.crt")) (certBytes, None);
     Called (acme_GetPEMCertExpiration certBytes) pem;
     Called time_Now tnow] in
  (45 < days ->
   result r = (CertificateResource_zero, Some (notYetDue days))
   /\ trace r = gate
   /\ final r = w)
  /\ (days <= 45 ->
      (exists rest,
         trace r = gate ++ Called (rsa_GenerateKey 2048) (answer w _ (rsa_GenerateKey 2048))
                        :: rest)
      /\ forall privateKey client metaBytes certMeta,
           answer w _ (rsa_GenerateKey 2048) = (privateKey, None) ->
           answer w _ (acme_NewClient acmeServer
                         {| Email := email; Registration := None; key := privateKey |}
                         RSA2048) = (client, None) ->
           readable w (filepath.Join certsDir "certs.json") metaBytes ->
           answer w _ (json_Unmarshal metaBytes) = (certMeta, None) ->
           let request :=
             client_RenewCertificate client (set_Certificate certMeta certBytes) true in
           In (Called request (answer w _ request)) (trace r)
           /\ result r = match snd (answer w _ request) with
                         | Some e => (CertificateResource_zero, Some e)
                         | None => (fst (answer w _ request), None)
                         end).
Proof.
  intros Hread pem tnow days r gate. split.
  - intros Hdays. unfold r.
    rewrite (renewCerts_refuses w certsDir email certBytes Hread Hdays).
    repeat split.
  - intros Hdays. split.
    + destruct (renewCerts_proceeds w certsDir email certBytes Hread Hdays) as [rest Hrest].
      exists rest. exact Hrest.
    + intros privateKey client metaBytes certMeta Hkey Hclient Hmeta Hjson request.
      unfold r.
      rewrite (renewCerts_renews w certsDir email certBytes metaBytes privateKey client
                 certMeta Hread Hdays Hkey Hclient Hmeta Hjson).
      split; [| reflexivity].
      unfold trace. simpl snd. do 8 right. left. reflexivity.
Qed.

(** C10, as the code has it.  The day count is the duration in hours,
    divided by 24 and truncated toward zero.  A certificate with strictly
    more than 45 and strictly fewer than 46 full days remaining yields 45,
    which does not exceed the threshold, and the renewal proceeds to the
    key generation; the gate refuses exactly when at least 46 whole days
    remain, that is exactly when the truncated day count is at least 46. *)
Theorem expTimeDays_threshold (expTime tnow : time.Time) :
  let days := expTimeDays expTime tnow in
  let remaining := expTime - tnow in
  days = float64.toInt
           (float64.div (time.Hours (time.Sub expTime tnow)) (float64.ofInt 24))
  /\ (45 * day < remaining < 46 * day ->
      days = 45 /\ (days >? renewDaysLimit) = false)
  /\ ((days >? renewDaysLimit) = true <-> 46 * day <= remaining)
  /\ ((days >? renewDaysLimit) = true <-> 46 <= days)
  /\ (forall w certsDir email certBytes perr,
        readable w (filepath.Join certsDir "public.crt") certBytes ->
        answer w _ (acme_GetPEMCertExpiration certBytes) = (expTime, perr) ->
        answer w _ time_Now = tnow ->
        45 * day < remaining < 46 * day ->
        exists rest,
          trace (run (renewCerts acmeServer certsDir email) w) =
            [Called (ioutil_ReadFile (filepath.Join certsDir "public.crt")) (certBytes, None);
             Called (acme_GetPEMCertExpiration certBytes) (expTime, perr);
             Called time_Now tnow;
             Called (rsa_GenerateKey 2048) (answer w _ (rsa_GenerateKey 2048))] ++ rest).
Proof.
  cbv zeta. unfold renewDaysLimit, day.
  pose proof (expTimeDays_lower expTime tnow) as Hlo.
  pose proof (expTimeDays_upper expTime tnow) as Hup.
  pose proof (expTimeDays_45 expTime tnow) as H45.
  rewrite Z.gtb_ltb.
  assert (Hgate : (45 <? expTimeDays expTime tnow) = true <-> 46 <= expTimeDays expTime tnow).
  { rewrite Z.ltb_lt. lia. }
  split; [reflexivity |]. split; [| split; [| split]].
  - intros Hrem. split; [lia |]. apply Z.ltb_ge. lia.
  - rewrite Hgate. split; intros; lia.
  - exact Hgate.
  - intros w certsDir email certBytes perr Hread Hpem Hnow Hrem.
    pose proof (renewCerts_proceeds w certsDir email certBytes Hread) as Hrun.
    cbv zeta in Hrun. rewrite Hpem, Hnow in Hrun. apply Hrun.
    unfold renewDaysLimit. simpl fst. lia.
Qed.

End Renewal.

Lemma renewCerts_policy_gate_witness :
  result (run (renewCerts letsEncrypt "/etc/concert" "admin@example.com") notDueWorld)
    = (CertificateResource_zero,
       Some (errors_New "Keys have not expired yet, please renew in 100 days."))
  /\ exists rest,
       map callName
         (trace (run (renewCerts letsEncrypt "/etc/concert" "admin@example.com") dueWorld))
       = ["ioutil.ReadFile"; "acme.GetPEMCertExpiration"; "time.Now"; "rsa.GenerateKey"]
           ++ rest.
Proof.
  split.
  - destruct (renewCerts_policy_gate letsEncrypt notDueWorld "/etc/concert"
                "admin@example.com" "CERT" eq_refl) as [Hrefuse _].
    destruct (Hrefuse eq_refl) as (Hres & _ & _). exact Hres.
  - destruct (renewCerts_policy_gate letsEncrypt dueWorld "/etc/concert"
                "admin@example.com" "CERT" eq_refl) as [_ Hproceed].
    destruct (Hproceed ltac:(vm_compute; discriminate)) as [[rest Hrest] _].
    exists (map callName rest). rewrite Hrest. reflexivity.
Defined.

Lemma expTimeDays_threshold_witness :
  expTimeDays (june2016 + 45 * day + 23 * time.Hour) june2016 = 45.
Proof.
  destruct (expTimeDays_threshold letsEncrypt (june2016 + 45 * day + 23 * time.Hour) june2016)
    as (_ & H & _).
  apply H. vm_compute. split; reflexivity.
Defined.

(** C10 as stated fails at its upper end: with exactly 46 full days
    remaining the day count is 46, and the gate refuses. *)
Lemma expTimeDays_46_days_refused :
  let expTime := june2016 + 46 * day in
  (45 * day < expTime - june2016 <= 46 * day)
  /\ expTimeDays expTime june2016 = 46
  /\ result (run (renewCerts letsEncrypt "/etc/concert" "admin@example.com")
                 (storedWorld "CERT" (expTime, None)))
     = (CertificateResource_zero, Some (notYetDue 46)).
Proof. vm_compute. repeat split; discriminate. Qed.

(** C1. The code does not do what the claim says: no run of renewCerts
    registers the fresh account or accepts the agreement.  With 10 days
    left and every collaborator succeeding, the key is generated and the
    client built, and the renewal is requested right after the metadata is
    loaded; genCerts, whenever it requests a certificate, has registered
    and accepted before. *)
Theorem renewCerts_never_registers :
  (forall acmeServer w certsDir email,
     existsb isRegistration (trace (run (renewCerts acmeServer certsDir email) w)) = false)
  /\ (let r := run (renewCerts letsEncrypt "/etc/concert" "admin@example.com") dueWorld in
      result r = (sampleCert, None)
      /\ map callName (trace r) =
           ["ioutil.ReadFile"; "acme.GetPEMCertExpiration"; "time.Now";
            "rsa.GenerateKey"; "acme.NewClient"; "client.ExcludeChallenges";
            "ioutil.ReadFile"; "json.Unmarshal"; "client.RenewCertificate"])
  /\ (let r := run (genCerts letsEncrypt "admin@example.com" "example.com" ["www"; "api"])
                   (issuanceWorld ∅) in
      map callName (trace r) =
        ["rsa.GenerateKey"; "acme.NewClient"; "client.ExcludeChallenges";
         "client.Register"; "user.Registration ="; "client.AgreeToTOS";
         "client.ObtainCertificate"]).
Proof.
  split; [exact renewCerts_no_registration |].
  split; vm_compute; repeat split.
Qed.

(** C2. The code does not do what the claim says: the error of
    [acme.GetPEMCertExpiration] is dropped.  With a [public.crt] that is
    not a PEM certificate the extraction returns the zero time and an
    error; renewCerts computes -106751 days from the zero time, passes the
    gate and renews, returning no error at all, where getCertExpTime
    returns the parse error. *)
Theorem renewCerts_drops_parse_error :
  let parseError := errors_New "Pem decode did not yield a valid block. Is the certificate in the right format?" in
  let r := run (renewCerts letsEncrypt "/etc/concert" "admin@example.com") badPemWorld in
  readable badPemWorld "/etc/concert/public.crt" "not a certificate"
  /\ answer badPemWorld _ (acme_GetPEMCertExpiration "not a certificate")
     = (time.zero, Some parseError)
  /\ expTimeDays time.zero june2016 = -106751
  /\ result r = (sampleCert, None)
  /\ map callName (trace r) =
       ["ioutil.ReadFile"; "acme.GetPEMCertExpiration"; "time.Now";
        "rsa.GenerateKey"; "acme.NewClient"; "client.ExcludeChallenges";
        "ioutil.ReadFile"; "json.Unmarshal"; "client.RenewCertificate"]
  /\ result (run (getCertExpTime "/etc/concert") badPemWorld) = (time.zero, Some parseError).
Proof. vm_compute. repeat split. Qed.

(** ** The issuance orchestrator *)

Section Issuance.

Variable acmeServer : string.

Lemma appendSubDomains_spec (domain : string) (subDomains domains : list string) :
  appendSubDomains domain subDomains domains =
    domains ++ map (fun sub => sub +:+ "." +:+ domain) subDomains.
Proof.
  unfold appendSubDomains. revert domains.
  induction subDomains as [|sub subs IH]; intros domains; simpl.
  - now rewrite app_nil_r.
  - rewrite IH, <- app_assoc. reflexivity.
Qed.

(** The domains that genCerts builds are the Domain Set. *)
Lemma genCerts_domains (domain : string) (subDomains : list string) :
  (if negb (isSubDomain domain)
   then appendSubDomains domain subDomains [domain]
   else [domain]) = domainSetSpec domain subDomains.
Proof.
  unfold domainSetSpec, isSubDomain. cbv zeta.
  destruct (Z.gtb_spec (Z.of_nat (List.length (strings.Split domain "."))) 2) as [H | H];
    simpl negb; cbv iota.
  - rewrite decide_True by lia. reflexivity.
  - rewrite decide_False by lia. now rewrite appendSubDomains_spec.
Qed.

Lemma collectFailures_from (visited : list (string * error))
    (ds : list string) (es : list error) :
  fold_left (fun acc entry => (fst acc ++ [fst entry], snd acc ++ [snd entry]))
            visited (ds, es)
  = (ds ++ map fst visited, es ++ map snd visited).
Proof.
  revert ds es. induction visited as [|[d e] l IH]; intros ds es; simpl.
  - now rewrite !app_nil_r.
  - rewrite IH, <- !app_assoc. reflexivity.
Qed.

Lemma collectFailures_spec (visited : list (string * error)) :
  collectFailures visited = (map fst visited, map snd visited).
Proof. unfold collectFailures. now rewrite collectFailures_from. Qed.


Lemma size_positive (m : gmap string error) :
  (Z.of_nat (size m) >? 0) = negb (bool_decide (m = ∅)).
Proof.
  case_bool_decide as H.
  - subst m. reflexivity.
  - apply map_size_non_empty_iff in H. simpl. apply Z.gtb_lt. lia.
Qed.

(** Either a step before the issuance fails and nothing is requested, or
    the account is registered, the agreement accepted, and one bundled
    certificate is requested for the Domain Set. *)
Lemma genCerts_run_cases (w : World) (email domain : string) (subDomains : list string) :
  let r := run (genCerts acmeServer email domain subDomains) w in
  (domainsSubmitted (trace r) = [] /\ failuresReported (trace r) = []
   /\ exists e, result r = (CertificateResource_zero, Some e))
  \/ (exists client cert failures,
        answer w _ (client_ObtainCertificate client (domainSetSpec domain subDomains) true None)
          = (cert, failures)
        /\ domainsSubmitted (trace r) = [(domainSetSpec domain subDomains, true)]
        /\ failuresReported (trace r) = [failures]
        /\ existsb isRegistration (trace r) = true
        /\ result r =
             if bool_decide (failures = ∅) then (cert, None)
             else (CertificateResource_zero,
                   Some (issuanceFailure (rangeOrder w failures)))).
Proof.
  cbv zeta. unfold genCerts, trace, result. exec.
  rewrite genCerts_domains.
  destruct (answer w _ (rsa_GenerateKey 2048)) as [privateKey [e |]]; exec;
    [left; eauto |].
  destruct (answer w _ (acme_NewClient acmeServer
              {| Email := email; Registration := None; key := privateKey |} RSA2048))
    as [client [e |]]; exec; [left; eauto |].
  destruct (answer w _ (client_Register client)) as [reg [e |]]; exec; [left; eauto |].
  destruct (answer w _ (client_AgreeToTOS client)) as [e |]; exec; [left; eauto |].
  right. exists client.
  destruct (answer w _ (client_ObtainCertificate client (domainSetSpec domain subDomains)
                          true None)) as [cert failures] eqn:Hobtain.
  exists cert, failures. exec. rewrite size_positive.
  case_bool_decide as Hf; exec.
  - repeat split; reflexivity.
  - rewrite collectFailures_spec. repeat split; reflexivity.
Qed.

(** C5. For every primary domain and list of subdomains, the Domain Set
    that genCerts submits is the primary alone when the primary has more
    than two dot-separated labels, and otherwise the primary followed by
    each subdomain joined to it with a dot, in the order of the list; it is
    submitted once, bundled, when the key generation, the client
    construction, the registration and the agreement succeed. *)
Theorem genCerts_domain_set (w : World) (email domain : string) (subDomains : list string) :
  let r := run (genCerts acmeServer email domain subDomains) w in
  let domainSet :=
    if decide (2 < List.length (strings.Split domain "."))%nat
    then [domain]
    else domain :: map (fun sub => sub +:+ "." +:+ domain) subDomains in
  (forall submitted, In submitted (domainsSubmitted (trace r)) -> submitted = (domainSet, true))
  /\ (forall privateKey client reg,
        answer w _ (rsa_GenerateKey 2048) = (privateKey, None) ->
        answer w _ (acme_NewClient acmeServer
                      {| Email := email; Registration := None; key := privateKey |}
                      RSA2048) = (client, None) ->
        answer w _ (client_Register client) = (reg, None) ->
        answer w _ (client_AgreeToTOS client) = None ->
        domainsSubmitted (trace r) = [(domainSet, true)]).
Proof.
  cbv zeta. fold (domainSetSpec domain subDomains). split.
  - intros submitted Hin.
    destruct (genCerts_run_cases w email domain subDomains)
      as [(Hnone & _) | (client & cert & failures & _ & Hsub & _)].
    + rewrite Hnone in Hin. destruct Hin.
    + rewrite Hsub in Hin. destruct Hin as [<- | []]. reflexivity.
  - intros privateKey client reg Hkey Hclient Hreg Htos.
    unfold genCerts, trace. exec. rewrite Hkey. exec. rewrite Hclient. exec.
    rewrite Hreg. exec. rewrite Htos. exec. rewrite genCerts_domains.
    destruct (answer w _ (client_ObtainCertificate client (domainSetSpec domain subDomains)
                            true None)) as [cert failures].
    rewrite size_positive. case_bool_decide; exec; [reflexivity |].
    rewrite collectFailures_spec. reflexivity.
Qed.

(** genCerts requests a certificate only after it has registered the
    account and accepted the agreement. *)
Lemma genCerts_registers_first (w : World) (email domain : string)
    (subDomains : list string) :
  let tr := trace (run (genCerts acmeServer email domain subDomains) w) in
  domainsSubmitted tr <> [] -> existsb isRegistration tr = true.
Proof.
  intros tr Hsub. unfold tr in *.
  destruct (genCerts_run_cases w email domain subDomains)
    as [(Hnone & _) | (client & cert & failures & _ & _ & _ & Hreg & _)].
  - contradiction.
  - exact Hreg.
Qed.



End Issuance.

Lemma genCerts_domain_set_witness :
  domainsSubmitted
    (trace (run (genCerts letsEncrypt "admin@example.com" "example.com" ["www"; "api"])
                (issuanceWorld ∅)))
  = [(["example.com"; "www.example.com"; "api.example.com"], true)].
Proof.
  destruct (genCerts_domain_set letsEncrypt (issuanceWorld ∅) "admin@example.com"
              "example.com" ["www"; "api"]) as [_ H].
  exact (H (rsaKey 2048 "key") (clientRef 1) (regRef "https://ca.example/reg/2")
           eq_refl eq_refl eq_refl eq_refl).
Defined.

Example domainSet_examples :
  domainSetSpec "example.com" ["www"; "api"]
    = ["example.com"; "www.example.com"; "api.example.com"]
  /\ domainSetSpec "sub.example.com" ["www"; "api"] = ["sub.example.com"].
Proof. split; reflexivity. Qed.



Example genCerts_two_of_three_fail :
  result (run (genCerts letsEncrypt "admin@example.com" "example.com" ["www"; "api"])
              (issuanceWorld twoFailures))
  = (CertificateResource_zero,
     Some (errors_New
       "Failed to obtain certificates for Domains: [www.example.com api.example.com], with following errors [acme: challenge failed acme: no route to host] respectively.")).
Proof. vm_compute. reflexivity. Qed.

(** ** The certificate store *)

Section Store.

Lemma Join_inj (dir a b : string) : filepath.Join dir a = filepath.Join dir b -> a = b.
Proof.
  unfold filepath.Join. destruct (String.eqb dir ""); [tauto |].
  intros H. apply String.app_inj in H. now apply String.app_inj in H.
Qed.

Lemma Join_ne (dir a b : string) : a <> b -> filepath.Join dir a <> filepath.Join dir b.
Proof. intros Hab H. apply Hab. exact (Join_inj _ _ _ H). Qed.

(** The outcome of a write: the answer of the world, which is not
    changed by the write; a success puts the data on the disk, under the
    mode the file had or, for a new file, the mode asked for less the
    mask; no other file is touched either way. *)
Lemma writeFile_effect (w : World) (name : string) (data : bytes) (perm : Z) :
  let r := writeFile w name data perm in
  fst r = answer w _ (ioutil_WriteFile name data perm)
  /\ answer (snd r) = answer w
  /\ umask (snd r) = umask w
  /\ (fst r = None ->
      fs (snd r) =
        <[name := {| content := data;
                     mode := match fs w !! name with
                             | Some f => mode f
                             | None => Z.land perm (Z.lnot (umask w))
                             end |}]> (fs w))
  /\ (forall other, other <> name -> fs (snd r) !! other = fs w !! other).
Proof.
  unfold writeFile. cbv zeta.
  destruct (answer w _ (ioutil_WriteFile name data perm)) as [e |]; simpl.
  - repeat split; [discriminate |].
    intros other Hne. now rewrite lookup_partial_alter_ne.
  - repeat split. intros other Hne. now rewrite lookup_insert_ne.
Qed.

(** The mode 0600 less any mask gives the group and the others no
    permission. *)
Lemma ownerOnly_0600 (mask : Z) : ownerOnly (Z.land 384 (Z.lnot mask)).
Proof.
  unfold ownerOnly. rewrite <- Z.land_assoc, (Z.land_comm _ 63), Z.land_assoc.
  reflexivity.
Qed.

(** C8, as the code has it: the mode 0600 is asked for, and it is the
    mode of a file that the call creates.  saveCerts writes [public.crt],
    then [private.key], then the indented JSON of the resource to
    [certs.json], asking for the mode 0600 (384) each time: a file that did
    not exist is created with 0600 less the mask, which gives the group and
    the others no permission, and a file that existed keeps the mode it
    had.  The writes are not transactional: the first failure, of a write
    or of the serialization, is returned and ends the call, and every file
    written before it is on the disk with its new content. *)
Theorem saveCerts_spec (w : World) (certsDir : string) (cert : CertificateResource) :
  let crt := filepath.Join certsDir "public.crt" in
  let keyf := filepath.Join certsDir "private.key" in
  let meta := filepath.Join certsDir "certs.json" in
  let W1 := ioutil_WriteFile crt (Certificate cert) 384 in
  let W2 := ioutil_WriteFile keyf (PrivateKey cert) 384 in
  let M := json_MarshalIndent cert "" tab in
  let json := answer w _ M in
  let W3 := ioutil_WriteFile meta (fst json) 384 in
  let r := run (saveCerts certsDir cert) w in
  let disk name := fs (final r) !! name in
  let saved name data :=
    Some {| content := data;
            mode := match fs w !! name with
                    | Some old => mode old
                    | None => Z.land 384 (Z.lnot (umask w))
                    end |} in
  ownerOnly (Z.land 384 (Z.lnot (umask w)))
  /\ match answer w _ W1 with
     | Some e1 => result r = Some e1 /\ trace r = [Called W1 (Some e1)]
     | None =>
         disk crt = saved crt (Certificate cert)
         /\ match answer w _ W2 with
            | Some e2 =>
                result r = Some e2 /\ trace r = [Called W1 None; Called W2 (Some e2)]
            | None =>
                disk keyf = saved keyf (PrivateKey cert)
                /\ match snd json with
                   | Some e3 =>
                       result r = Some e3
                       /\ trace r = [Called W1 None; Called W2 None; Called M json]
                   | None =>
                       match answer w _ W3 with
                       | Some e4 =>
                           result r = Some e4
                           /\ trace r = [Called W1 None; Called W2 None; Called M json;
                                         Called W3 (Some e4)]
                       | None =>
                           result r = None
                           /\ trace r = [Called W1 None; Called W2 None; Called M json;
                                         Called W3 None]
                           /\ disk meta = saved meta (fst json)
                       end
                   end
            end
     end.
Proof.
  cbv zeta. split; [apply ownerOnly_0600 |].
  unfold saveCerts, result, final, trace, tab. exec.
  assert (Hck : filepath.Join certsDir "public.crt" <> filepath.Join certsDir "private.key")
    by (apply Join_ne; discriminate).
  assert (Hcm : filepath.Join certsDir "public.crt" <> filepath.Join certsDir "certs.json")
    by (apply Join_ne; discriminate).
  assert (Hkm : filepath.Join certsDir "private.key" <> filepath.Join certsDir "certs.json")
    by (apply Join_ne; discriminate).
  pose proof (writeFile_effect w (filepath.Join certsDir "public.crt") (Certificate cert) 384)
    as (A1 & B1 & U1 & C1 & D1).
  destruct (writeFile w (filepath.Join certsDir "public.crt") (Certificate cert) 384)
    as [r1 w1]. simpl in A1, B1, U1, C1, D1. rewrite <- A1. exec.
  destruct r1 as [e1 |]; exec; [split; reflexivity |].
  specialize (C1 eq_refl).
  assert (Hcrt1 : fs w1 !! filepath.Join certsDir "public.crt"
                  = Some {| content := Certificate cert;
                            mode := match fs w !! filepath.Join certsDir "public.crt" with
                                    | Some old => mode old
                                    | None => Z.land 384 (Z.lnot (umask w))
                                    end |}).
  { rewrite C1. apply lookup_insert_eq. }
  pose proof (writeFile_effect w1 (filepath.Join certsDir "private.key") (PrivateKey cert) 384)
    as (A2 & B2 & U2 & C2 & D2).
  destruct (writeFile w1 (filepath.Join certsDir "private.key") (PrivateKey cert) 384)
    as [r2 w2]. simpl in A2, B2, U2, C2, D2. rewrite B1 in A2. rewrite B1 in B2.
  rewrite <- A2. exec.
  destruct r2 as [e2 |]; exec.
  { split; [| split; reflexivity]. rewrite D2 by exact Hck. exact Hcrt1. }
  specialize (C2 eq_refl). rewrite B2.
  assert (Hkey2 : fs w2 !! filepath.Join certsDir "private.key"
                  = Some {| content := PrivateKey cert;
                            mode := match fs w !! filepath.Join certsDir "private.key" with
                                    | Some old => mode old
                                    | None => Z.land 384 (Z.lnot (umask w))
                                    end |}).
  { rewrite C2, lookup_insert_eq, U1. rewrite (D1 _ (not_eq_sym Hck)). reflexivity. }
  destruct (answer w _ (json_MarshalIndent cert "" (String (ascii_of_nat 9) "")))
    as [jsonBytes [e3 |]] eqn:Hjson; exec.
  { split; [rewrite D2 by exact Hck; exact Hcrt1 |]. split; [exact Hkey2 |].
    split; reflexivity. }
  pose proof (writeFile_effect w2 (filepath.Join certsDir "certs.json") jsonBytes 384)
    as (A3 & B3 & U3 & C3 & D3).
  destruct (writeFile w2 (filepath.Join certsDir "certs.json") jsonBytes 384)
    as [r3 w3]. simpl in A3, B3, U3, C3, D3. rewrite B2 in A3.
  rewrite <- A3. exec.
  assert (Hcrt : fs w3 !! filepath.Join certsDir "public.crt"
                 = Some {| content := Certificate cert;
                           mode := match fs w !! filepath.Join certsDir "public.crt" with
                                   | Some old => mode old
                                   | None => Z.land 384 (Z.lnot (umask w))
                                   end |}).
  { rewrite D3 by exact Hcm. rewrite D2 by exact Hck. exact Hcrt1. }
  assert (Hkey : fs w3 !! filepath.Join certsDir "private.key"
                 = Some {| content := PrivateKey cert;
                           mode := match fs w !! filepath.Join certsDir "private.key" with
                                   | Some old => mode old
                                   | None => Z.land 384 (Z.lnot (umask w))
                                   end |}).
  { rewrite D3 by exact Hkm. exact Hkey2. }
  destruct r3 as [e4 |]; exec.
  - repeat split; assumption.
  - repeat split; try assumption.
    rewrite (C3 eq_refl), lookup_insert_eq, U2, U1.
    rewrite (D2 _ (not_eq_sym Hkm)), (D1 _ (not_eq_sym Hcm)). reflexivity.
Qed.

End Store.

Example mode_0600 : 384 = 6 * 8 ^ 2.
Proof. reflexivity. Qed.

Lemma saveCerts_spec_witness :
  let failed := run (saveCerts "/etc/concert" sampleCert) diskFullWorld in
  let r := run (saveCerts "/etc/concert" sampleCert) looseWorld in
  (result failed
   = Some (errors_New "write /etc/concert/certs.json: no space left on device")
   /\ map callName (trace failed)
      = ["ioutil.WriteFile"; "ioutil.WriteFile"; "json.MarshalIndent"; "ioutil.WriteFile"]
   /\ fs (final failed) !! "/etc/concert/public.crt"
      = Some {| content := "CERT"; mode := 384 |}
   /\ fs (final failed) !! "/etc/concert/private.key"
      = Some {| content := "KEY"; mode := 384 |})
  /\ (result r = None
      /\ fs (final r) !! "/etc/concert/public.crt" = Some {| content := "CERT"; mode := 384 |}
      /\ fs (final r) !! "/etc/concert/private.key" = Some {| content := "KEY"; mode := 420 |}
      /\ fs (final r) !! "/etc/concert/certs.json" = Some {| content := "{}"; mode := 384 |}).
Proof.
  cbv zeta. split.
  - pose proof (saveCerts_spec diskFullWorld "/etc/concert" sampleCert) as H.
    cbv zeta in H. destruct H as (_ & H).
    change (answer diskFullWorld _ (ioutil_WriteFile (filepath.Join "/etc/concert" "public.crt")
              (Certificate sampleCert) 384)) with (@None error) in H.
    destruct H as (Hcrt & H).
    change (answer diskFullWorld _ (ioutil_WriteFile (filepath.Join "/etc/concert" "private.key")
              (PrivateKey sampleCert) 384)) with (@None error) in H.
    destruct H as (Hkey & H).
    change (answer diskFullWorld _ (json_MarshalIndent sampleCert "" tab))
      with ("{}"%string, @None error) in H.
    cbn [snd fst] in H.
    change (answer diskFullWorld _ (ioutil_WriteFile (filepath.Join "/etc/concert" "certs.json")
              "{}" 384))
      with (Some (errors_New "write /etc/concert/certs.json: no space left on device")) in H.
    destruct H as (Hres & Htr).
    split; [exact Hres |]. split; [rewrite Htr; reflexivity |].
    split; [exact Hcrt | exact Hkey].
  - pose proof (saveCerts_spec looseWorld "/etc/concert" sampleCert) as H.
    cbv zeta in H. destruct H as (_ & H).
    change (answer looseWorld _ (ioutil_WriteFile (filepath.Join "/etc/concert" "public.crt")
              (Certificate sampleCert) 384)) with (@None error) in H.
    destruct H as (Hcrt & H).
    change (answer looseWorld _ (ioutil_WriteFile (filepath.Join "/etc/concert" "private.key")
              (PrivateKey sampleCert) 384)) with (@None error) in H.
    destruct H as (Hkey & H).
    change (answer looseWorld _ (json_MarshalIndent sampleCert "" tab))
      with ("{}"%string, @None error) in H.
    cbn [snd fst] in H.
    change (answer looseWorld _ (ioutil_WriteFile (filepath.Join "/etc/concert" "certs.json")
              "{}" 384)) with (@None error) in H.
    destruct H as (Hres & _ & Hmeta).
    split; [exact Hres |]. split; [exact Hcrt |]. split; [exact Hkey | exact Hmeta].
Defined.

(** C8 as stated fails: a private key that everyone could read is
    overwritten by a successful call and everyone can still read it. *)
Lemma saveCerts_owner_only_refuted :
  ~ (forall (w : World) (certsDir : string) (cert : CertificateResource)
            (name : string) (f : File),
       let r := run (saveCerts certsDir cert) w in
       result r = None ->
       In name [filepath.Join certsDir "public.crt"; filepath.Join certsDir "private.key";
                filepath.Join certsDir "certs.json"] ->
       fs (final r) !! name = Some f ->
       ownerOnly (mode f)).
Proof.
  intros H.
  specialize (H looseWorld "/etc/concert"%string sampleCert "/etc/concert/private.key"%string
                {| content := "KEY"; mode := 420 |}).
  cbv zeta in H. specialize (H eq_refl (or_intror (or_introl eq_refl)) eq_refl).
  unfold ownerOnly in H. discriminate H.
Qed.

(** * Further properties *)

(** ** The day count, continued *)

Section DayCountExact.

Lemma Sub_exact (t u : Z) : inRange (t - u) -> time.Sub t u = t - u.
Proof.
  unfold inRange, time.Sub. intros [Hlo Hhi].
  destruct (Z.ltb_spec (t - u) time.minDuration); [lia |].
  destruct (Z.ltb_spec time.maxDuration (t - u)); [lia | reflexivity].
Qed.

Lemma Sub_mono (t1 u1 t2 u2 : Z) :
  t1 - u1 <= t2 - u2 -> time.Sub t1 u1 <= time.Sub t2 u2.
Proof.
  intros H. unfold time.Sub, time.minDuration, time.maxDuration.
  destruct (Z.ltb_spec (t1 - u1) (- 2 ^ 63)); destruct (Z.ltb_spec (t2 - u2) (- 2 ^ 63));
    destruct (Z.ltb_spec (2 ^ 63 - 1) (t1 - u1)); destruct (Z.ltb_spec (2 ^ 63 - 1) (t2 - u2));
    lia.
Qed.

Lemma exactOnDay_table : forallb exactOnDay (seq 0 170) = true.
Proof. vm_compute. reflexivity. Qed.

Lemma exactOnDay_at (k : Z) :
  0 <= k < 170 ->
  daysOf (k * day) = k /\ daysOf ((k + 1) * day - 1) = k
  /\ daysOf (- (k * day)) = - k /\ daysOf (- ((k + 1) * day - 1)) = - k.
Proof.
  intros Hk. pose proof exactOnDay_table as Htab.
  rewrite forallb_forall in Htab. specialize (Htab (Z.to_nat k)).
  assert (Hin : In (Z.to_nat k) (seq 0 170)) by (apply in_seq; lia).
  specialize (Htab Hin). unfold exactOnDay in Htab. cbv zeta in Htab.
  rewrite Z2Nat.id in Htab by lia.
  rewrite !andb_true_iff, !Z.eqb_eq in Htab. tauto.
Qed.

Lemma inRange_days (d : Z) : - (171 * day) <= d <= 171 * day -> inRange d.
Proof.
  unfold inRange, time.minDuration, time.maxDuration.
  change day with 86400000000000. lia.
Qed.

Lemma daysOf_exact (d : Z) :
  - (170 * day) < d < 170 * day -> daysOf d = Z.quot d day.
Proof.
  intros Hd. change day with 86400000000000 in *.
  destruct (Z_le_gt_dec 0 d) as [Hpos | Hneg].
  - rewrite Z.quot_div_nonneg by lia.
    set (k := d / 86400000000000).
    assert (Hk : 0 <= k < 170 /\ k * 86400000000000 <= d <= (k + 1) * 86400000000000 - 1).
    { unfold k. pose proof (Z.div_mod d 86400000000000 ltac:(lia)).
      pose proof (Z.mod_pos_bound d 86400000000000 ltac:(lia)).
      split; [split; [apply Z.div_pos; lia | apply Z.div_lt_upper_bound; lia] | lia]. }
    destruct Hk as [Hk Hbounds].
    destruct (exactOnDay_at k Hk) as (Hlo & Hhi & _).
    change day with 86400000000000 in *.
    assert (daysOf (k * 86400000000000) <= daysOf d).
    { apply days_mono; [| | lia]; apply inRange_days; change day with 86400000000000; lia. }
    assert (daysOf d <= daysOf ((k + 1) * 86400000000000 - 1)).
    { apply days_mono; [| | lia]; apply inRange_days; change day with 86400000000000; lia. }
    lia.
  - replace d with (- (- d)) at 2 by lia. rewrite Z.quot_opp_l by lia.
    rewrite Z.quot_div_nonneg by lia.
    set (k := (- d) / 86400000000000).
    assert (Hk : 0 <= k < 170
                 /\ k * 86400000000000 <= - d <= (k + 1) * 86400000000000 - 1).
    { unfold k. pose proof (Z.div_mod (- d) 86400000000000 ltac:(lia)).
      pose proof (Z.mod_pos_bound (- d) 86400000000000 ltac:(lia)).
      split; [split; [apply Z.div_pos; lia | apply Z.div_lt_upper_bound; lia] | lia]. }
    destruct Hk as [Hk Hbounds].
    destruct (exactOnDay_at k Hk) as (_ & _ & Hlo & Hhi).
    change day with 86400000000000 in *.
    assert (daysOf (- ((k + 1) * 86400000000000 - 1)) <= daysOf d).
    { apply days_mono; [| | lia]; apply inRange_days; change day with 86400000000000; lia. }
    assert (daysOf d <= daysOf (- (k * 86400000000000))).
    { apply days_mono; [| | lia]; apply inRange_days; change day with 86400000000000; lia. }
    lia.
Qed.

(** X1. Within 170 days of the expiration, before or after it, the day
    count that renewCerts computes in binary64 is the exact number of
    whole days: the remaining nanoseconds divided by the nanoseconds of a
    day, truncated toward zero.  One nanosecond short of 171 days the
    rounding of the hours already yields 171. *)
Theorem expTimeDays_exact (expTime tnow : time.Time) :
  - (170 * day) < expTime - tnow < 170 * day ->
  expTimeDays expTime tnow = Z.quot (expTime - tnow) day.
Proof.
  intros Hd. unfold expTimeDays.
  rewrite Sub_exact by (apply inRange_days; lia).
  apply (daysOf_exact _ Hd).
Qed.

End DayCountExact.

Lemma expTimeDays_exact_witness :
  expTimeDays (june2016 + 45 * day + 23 * time.Hour) june2016
  = Z.quot (june2016 + 45 * day + 23 * time.Hour - june2016) day.
Proof.
  apply (expTimeDays_exact (june2016 + 45 * day + 23 * time.Hour) june2016).
  vm_compute. split; reflexivity.
Defined.

Section DayCountOrder.

Lemma days_at_ends :
  float64.toInt (float64.div (time.Hours time.minDuration) (float64.ofInt 24)) = -106751
  /\ float64.toInt (float64.div (time.Hours time.maxDuration) (float64.ofInt 24)) = 106751
  /\ float64.toInt (float64.div (time.Hours 0) (float64.ofInt 24)) = 0.
Proof. repeat split; vm_compute; reflexivity. Qed.

(** X2. The day count grows with the time that remains: a later expiration
    or an earlier clock never lowers it.  It is never negative before the
    expiration and never positive after it, and it always lies between
    -106751 and 106751, the day counts of the shortest and of the longest
    duration. *)
Theorem expTimeDays_monotone :
  (forall expTime1 tnow1 expTime2 tnow2,
     expTime1 - tnow1 <= expTime2 - tnow2 ->
     expTimeDays expTime1 tnow1 <= expTimeDays expTime2 tnow2)
  /\ (forall expTime tnow, tnow <= expTime -> 0 <= expTimeDays expTime tnow)
  /\ (forall expTime tnow, expTime <= tnow -> expTimeDays expTime tnow <= 0)
  /\ (forall expTime tnow, -106751 <= expTimeDays expTime tnow <= 106751).
Proof.
  destruct days_at_ends as (Hmin & Hmax & Hzero).
  assert (Hr0 : inRange 0) by (apply inRange_const; reflexivity).
  assert (Hrmin : inRange time.minDuration) by (apply inRange_const; reflexivity).
  assert (Hrmax : inRange time.maxDuration) by (apply inRange_const; reflexivity).
  unfold expTimeDays. repeat split.
  - intros expTime1 tnow1 expTime2 tnow2 H.
    apply days_mono; [apply Sub_inRange | apply Sub_inRange | now apply Sub_mono].
  - intros expTime tnow H.
    pose proof (days_mono 0 (time.Sub expTime tnow) Hr0 (Sub_inRange _ _)) as Hm.
    rewrite Hzero in Hm. apply Hm. apply Sub_ge; [vm_compute; discriminate | lia].
  - intros expTime tnow H.
    pose proof (days_mono (time.Sub expTime tnow) 0 (Sub_inRange _ _) Hr0) as Hm.
    rewrite Hzero in Hm. apply Hm. apply Sub_le; [vm_compute; discriminate | lia].
  - pose proof (days_mono _ (time.Sub expTime tnow) Hrmin (Sub_inRange _ _)) as Hm.
    rewrite Hmin in Hm. apply Hm. apply Sub_inRange.
  - pose proof (days_mono (time.Sub expTime tnow) _ (Sub_inRange _ _) Hrmax) as Hm.
    rewrite Hmax in Hm. apply Hm. apply Sub_inRange.
Qed.

End DayCountOrder.

Lemma expTimeDays_monotone_witness :
  expTimeDays (june2016 + 10 * day) june2016 <= expTimeDays (june2016 + 100 * day) june2016.
Proof.
  destruct expTimeDays_monotone as [Hmono _].
  apply Hmono. vm_compute. discriminate.
Defined.

(** ** The certificate store, continued *)

Section StoreReads.

(** X3. isCertAvailable stats [public.crt] and then [private.key], both
    in every run, and changes nothing.  It answers true exactly when both
    stats succeed; so it answers false as soon as one of the two files is
    not on the disk, and true when both are and no stat fails, whatever the
    files hold. *)
Theorem isCertAvailable_spec (w : World) (certsDir : string) :
  let crt := filepath.Join certsDir "public.crt" in
  let keyf := filepath.Join certsDir "private.key" in
  let r := run (isCertAvailable certsDir) w in
  trace r = [Called (os_Stat crt) (stat w crt); Called (os_Stat keyf) (stat w keyf)]
  /\ final r = w
  /\ (result r = true <-> stat w crt = None /\ stat w keyf = None)
  /\ (fs w !! crt = None \/ fs w !! keyf = None -> result r = false)
  /\ (is_Some (fs w !! crt) -> is_Some (fs w !! keyf) ->
      answer w _ (os_Stat crt) = None -> answer w _ (os_Stat keyf) = None ->
      result r = true).
Proof.
  cbv zeta. unfold isCertAvailable, trace, final, result. exec.
  split; [reflexivity |]. split; [reflexivity |].
  assert (Hiff : bool_decide (stat w (filepath.Join certsDir "public.crt") = None)
                 && bool_decide (stat w (filepath.Join certsDir "private.key") = None) = true
                 <-> stat w (filepath.Join certsDir "public.crt") = None
                     /\ stat w (filepath.Join certsDir "private.key") = None).
  { rewrite andb_true_iff, !bool_decide_eq_true. reflexivity. }
  split; [exact Hiff |]. split.
  - intros Hmissing. apply not_true_is_false. rewrite Hiff. unfold stat.
    destruct Hmissing as [H | H]; rewrite H; intros [H1 H2]; discriminate.
  - intros [f1 H1] [f2 H2] Ha1 Ha2. apply Hiff. unfold stat.
    rewrite H1, H2. split; assumption.
Qed.

(** X4. getCertExpTime returns the error of the load with the zero time,
    without looking at any bytes, when [public.crt] cannot be read: the
    not-exist error when the file is not on the disk.  Otherwise it returns
    what [acme.GetPEMCertExpiration] returns for the bytes read, time and
    error alike.  It changes nothing. *)
Theorem getCertExpTime_spec (w : World) (certsDir : string) :
  let crt := filepath.Join certsDir "public.crt" in
  let r := run (getCertExpTime certsDir) w in
  final r = w
  /\ (forall e, snd (readFile w crt) = Some e ->
      result r = (time.zero, Some e)
      /\ trace r = [Called (ioutil_ReadFile crt) (readFile w crt)])
  /\ (fs w !! crt = None -> result r = (time.zero, Some (errNotExist crt)))
  /\ (forall certBytes, readable w crt certBytes ->
      result r = answer w _ (acme_GetPEMCertExpiration certBytes)
      /\ trace r = [Called (ioutil_ReadFile crt) (certBytes, None);
                    Called (acme_GetPEMCertExpiration certBytes)
                           (answer w _ (acme_GetPEMCertExpiration certBytes))]).
Proof.
  cbv zeta. unfold getCertExpTime, loadCert, readable, trace, final, result. exec.
  destruct (readFile w (filepath.Join certsDir "public.crt")) as [b [e |]] eqn:Hread; exec.
  - split; [reflexivity |]. split; [| split].
    + intros e' He. injection He as <-. split; reflexivity.
    + intros Hnone. unfold readFile in Hread. rewrite Hnone in Hread.
      injection Hread as <- <-. reflexivity.
    + intros certBytes H. discriminate H.
  - split; [reflexivity |]. split; [| split].
    + intros e' He. discriminate He.
    + intros Hnone. unfold readFile in Hread. rewrite Hnone in Hread. discriminate Hread.
    + intros certBytes H. injection H as <-. split; reflexivity.
Qed.

(** X5. loadCertMeta returns the zero resource with the error of the
    read, and parses nothing, when [certs.json] cannot be read; the zero
    resource with the error of [json.Unmarshal], whatever was decoded so
    far, when the bytes do not parse; and otherwise the decoded resource.
    It changes nothing. *)
Theorem loadCertMeta_spec (w : World) (certsDir : string) :
  let meta := filepath.Join certsDir "certs.json" in
  let r := run (loadCertMeta certsDir) w in
  final r = w
  /\ (forall e, snd (readFile w meta) = Some e ->
      result r = (CertificateResource_zero, Some e)
      /\ trace r = [Called (ioutil_ReadFile meta) (readFile w meta)])
  /\ (fs w !! meta = None ->
      result r = (CertificateResource_zero, Some (errNotExist meta)))
  /\ (forall metaBytes, readable w meta metaBytes ->
      let decoded := answer w _ (json_Unmarshal metaBytes) in
      trace r = [Called (ioutil_ReadFile meta) (metaBytes, None);
                 Called (json_Unmarshal metaBytes) decoded]
      /\ (forall e, snd decoded = Some e -> result r = (CertificateResource_zero, Some e))
      /\ (snd decoded = None -> result r = (fst decoded, None))).
Proof.
  cbv zeta. unfold loadCertMeta, readable, trace, final, result. exec.
  destruct (readFile w (filepath.Join certsDir "certs.json")) as [b [e |]] eqn:Hread; exec.
  - split; [reflexivity |]. split; [| split].
    + intros e' He. injection He as <-. split; reflexivity.
    + intros Hnone. unfold readFile in Hread. rewrite Hnone in Hread.
      injection Hread as <- <-. reflexivity.
    + intros metaBytes H. discriminate H.
  - destruct (answer w _ (json_Unmarshal b)) as [certRes [e |]] eqn:Hjson; exec.
    + split; [reflexivity |]. split; [| split].
      * intros e' He. discriminate He.
      * intros Hnone. unfold readFile in Hread. rewrite Hnone in Hread. discriminate Hread.
      * intros metaBytes H. injection H as <-. rewrite Hjson. simpl.
        split; [reflexivity |]. split; [intros e' He; injection He as <-; reflexivity |].
        intros He. discriminate He.
    + split; [reflexivity |]. split; [| split].
      * intros e' He. discriminate He.
      * intros Hnone. unfold readFile in Hread. rewrite Hnone in Hread. discriminate Hread.
      * intros metaBytes H. injection H as <-. rewrite Hjson. simpl.
        split; [reflexivity |]. split; [intros e' He; discriminate He | reflexivity].
Qed.

End StoreReads.

Lemma isCertAvailable_spec_witness :
  result (run (isCertAvailable "/etc/concert") dueWorld) = true
  /\ result (run (isCertAvailable "/etc/concert") (issuanceWorld ∅)) = false.
Proof.
  split.
  - destruct (isCertAvailable_spec dueWorld "/etc/concert") as (_ & _ & _ & _ & H).
    apply H; [eexists; reflexivity | eexists; reflexivity | reflexivity | reflexivity].
  - destruct (isCertAvailable_spec (issuanceWorld ∅) "/etc/concert") as (_ & _ & _ & H & _).
    apply H. left. reflexivity.
Defined.

Lemma getCertExpTime_spec_witness :
  result (run (getCertExpTime "/etc/concert") dueWorld) = (june2016 + 10 * day, None)
  /\ result (run (getCertExpTime "/etc/concert") (issuanceWorld ∅))
     = (time.zero, Some (errNotExist "/etc/concert/public.crt")).
Proof.
  split.
  - destruct (getCertExpTime_spec dueWorld "/etc/concert") as (_ & _ & _ & H).
    destruct (H "CERT"%string eq_refl) as [Hres _]. exact Hres.
  - destruct (getCertExpTime_spec (issuanceWorld ∅) "/etc/concert") as (_ & _ & H & _).
    exact (H eq_refl).
Defined.

Lemma loadCertMeta_spec_witness :
  result (run (loadCertMeta "/etc/concert") dueWorld) = (sampleMeta, None)
  /\ result (run (loadCertMeta "/etc/concert") (issuanceWorld ∅))
     = (CertificateResource_zero, Some (errNotExist "/etc/concert/certs.json")).
Proof.
  split.
  - destruct (loadCertMeta_spec dueWorld "/etc/concert") as (_ & _ & _ & H).
    destruct (H "{}"%string eq_refl) as (_ & _ & Hok). exact (Hok eq_refl).
  - destruct (loadCertMeta_spec (issuanceWorld ∅) "/etc/concert") as (_ & _ & H & _).
    exact (H eq_refl).
Defined.

(** ** The orchestrators, continued *)

Section Orchestrators.

Variable acmeServer : string.

Ltac gate_cases :=
  match goal with
  | |- context [expTimeDays ?t ?n >? renewDaysLimit] =>
      destruct (expTimeDays t n >? renewDaysLimit); exec
  end.

Ltac issue_cases :=
  match goal with
  | |- context [Z.of_nat (size ?m) >? 0] =>
      destruct (Z.of_nat (size m) >? 0); exec
  end.

Ltac collect_cases :=
  match goal with
  | |- context [collectFailures ?l] => destruct (collectFailures l); exec
  end.

(** Every run of genCerts and of renewCerts, taken apart along the answers
    of the collaborators. *)
Ltac genCerts_runs :=
  unfold genCerts; exec; answer_cases; try issue_cases; try collect_cases.

Ltac renewCerts_runs :=
  unfold renewCerts, loadCert, loadCertMeta; exec; answer_cases;
  try gate_cases; answer_cases.

(** X6. genCerts, renewCerts and loadCertMeta never return an error
    together with a resource: whenever the error is not nil, the resource
    is the zero value, whatever the collaborator returned beside its
    error. *)
Theorem error_means_zero_resource (w : World) (email domain certsDir : string)
    (subDomains : list string) :
  (snd (result (run (genCerts acmeServer email domain subDomains) w)) <> None ->
   fst (result (run (genCerts acmeServer email domain subDomains) w))
   = CertificateResource_zero)
  /\ (snd (result (run (renewCerts acmeServer certsDir email) w)) <> None ->
      fst (result (run (renewCerts acmeServer certsDir email) w))
      = CertificateResource_zero)
  /\ (snd (result (run (loadCertMeta certsDir) w)) <> None ->
      fst (result (run (loadCertMeta certsDir) w)) = CertificateResource_zero).
Proof.
  unfold result. split; [| split].
  - genCerts_runs; simpl; intros H; try reflexivity; congruence.
  - renewCerts_runs; simpl; intros H; try reflexivity; congruence.
  - unfold loadCertMeta. exec. answer_cases; simpl; intros H; try reflexivity; congruence.
Qed.

Ltac failures_cases :=
  match goal with
  | |- context [Z.of_nat (size ?m) >? 0] =>
      rewrite (size_positive m);
      destruct (decide (m = ∅)) as [-> | ?];
      [ rewrite bool_decide_eq_true_2 by reflexivity
      | rewrite bool_decide_eq_false_2 by assumption ];
      exec
  end.

Ltac limit_cases :=
  match goal with
  | |- context [expTimeDays ?t ?n >? renewDaysLimit] =>
      destruct (Z.gtb_spec (expTimeDays t n) renewDaysLimit); exec
  end.

(** X7. In every run genCerts calls its collaborators in the order of the
    source and stops at the first failure: the key, the client, the
    exclusion of challenges, the registration, the agreement, the issuance,
    and the visit of the failures if there are any.  No call but the last
    has failed; when the last call has failed, its error is returned with
    the zero resource; when it has not, the run is complete, the issuance
    was requested and the failures were visited if there were any.  It
    never reads or writes the disk: the world it leaves is the world it
    found. *)
Theorem genCerts_call_order (w : World) (email domain : string) (subDomains : list string) :
  let r := run (genCerts acmeServer email domain subDomains) w in
  let names := map callName (trace r) in
  names `prefix_of` genCertsOrder
  /\ final r = w
  /\ Forall (fun c => testedError c = None) (removelast (trace r))
  /\ match last (trace r) with
     | None => False
     | Some c =>
         match testedError c with
         | Some e => result r = (CertificateResource_zero, Some e)
         | None =>
             exists cert failures,
               certificatesObtained (trace r) = [(cert, failures)]
               /\ names = if decide (failures = ∅)
                          then take 7 genCertsOrder
                          else genCertsOrder
         end
     end.
Proof.
  cbv zeta. unfold trace, final, result, genCertsOrder, genCerts. exec.
  answer_cases; try failures_cases; try collect_cases;
    (split; [eexists; reflexivity |]); (split; [reflexivity |]);
    (split; [repeat constructor |]); try reflexivity.
  - eexists _, ∅. split; [reflexivity |]. rewrite decide_True by reflexivity. reflexivity.
  - eexists _, _. split; [reflexivity |]. rewrite decide_False by assumption. reflexivity.
Qed.

(** X8. In every run renewCerts calls its collaborators in the order of
    the source and stops at the gate or at the first failure it tests: the
    read of the certificate, its expiration, the clock, the key, the
    client, the exclusion of challenges, the read and the parse of the
    metadata, the renewal.  No call but the last has failed; when the last
    call has failed, its error is returned with the zero resource; when it
    has not, either the day count is above the limit and the run ended
    after the clock with the not-yet-due error, or the run is complete and
    returns the renewed resource.  It never writes: the world it leaves is
    the world it found. *)
Theorem renewCerts_call_order (w : World) (certsDir email : string) :
  let r := run (renewCerts acmeServer certsDir email) w in
  let names := map callName (trace r) in
  let certBytes := fst (readFile w (filepath.Join certsDir "public.crt")) in
  let expTime := fst (answer w _ (acme_GetPEMCertExpiration certBytes)) in
  let days := expTimeDays expTime (answer w _ time_Now) in
  names `prefix_of` renewCertsOrder
  /\ final r = w
  /\ Forall (fun c => testedError c = None) (removelast (trace r))
  /\ match last (trace r) with
     | None => False
     | Some c =>
         match testedError c with
         | Some e => result r = (CertificateResource_zero, Some e)
         | None =>
             if decide (renewDaysLimit < days)
             then names = take 3 renewCertsOrder
                  /\ result r = (CertificateResource_zero, Some (notYetDue days))
             else names = renewCertsOrder /\ snd (result r) = None
         end
     end.
Proof.
  cbv zeta. unfold trace, final, result, renewCertsOrder, renewCerts, loadCert, loadCertMeta.
  exec. answer_cases; try limit_cases; answer_cases;
    (split; [eexists; reflexivity |]); (split; [reflexivity |]);
    (split; [repeat constructor |]); try reflexivity.
  - rewrite decide_True by assumption. split; reflexivity.
  - rewrite decide_False by lia. split; reflexivity.
Qed.

(** X9. In every run of genCerts and of renewCerts the key generated has
    2048 bits; the client is built for the CA endpoint, the email given,
    no registration and the key type RSA2048, with the key generated in
    this run as the key of the account; the challenges excluded are DNS-01
    alone; issuance and renewal are bundled, and the issuance leaves the
    certificate key to the client; and every operation on a client is on
    the client built in this run. *)
Theorem fresh_account_per_run (w : World) (email domain certsDir : string)
    (subDomains : list string) :
  let session tr :=
    Forall (fixedArguments acmeServer email) tr
    /\ incl (accountKeys tr) (keysGenerated tr)
    /\ incl (clientsUsed tr) (clientsBuilt tr) in
  session (trace (run (genCerts acmeServer email domain subDomains) w))
  /\ session (trace (run (renewCerts acmeServer certsDir email) w)).
Proof.
  cbv zeta. unfold trace. split.
  - genCerts_runs;
      (split; [repeat constructor | split; intros x Hx; simpl in *; tauto]).
  - renewCerts_runs;
      (split; [repeat constructor | split; intros x Hx; simpl in *; tauto]).
Qed.

(** X10. genCerts returns without an error exactly when it reached the
    issuance and the CA reported no failure; it then returns the resource
    of the CA as it is. *)
Theorem genCerts_success (w : World) (email domain : string) (subDomains : list string) :
  let r := run (genCerts acmeServer email domain subDomains) w in
  (snd (result r) = None
   <-> exists cert, certificatesObtained (trace r) = [(cert, ∅)])
  /\ (forall cert, certificatesObtained (trace r) = [(cert, ∅)] -> result r = (cert, None)).
Proof.
  cbv zeta. unfold trace, result, genCerts. exec. answer_cases;
    try (split; [split; [intros H; discriminate H | intros [got H]; discriminate H]
                | intros got H; discriminate H]).
  rewrite size_positive.
  match goal with |- context [bool_decide (?m = ∅)] => destruct (decide (m = ∅)) as [-> | Hne] end.
  - rewrite bool_decide_eq_true_2 by reflexivity. exec. split.
    + split; [intros _; eexists; reflexivity | reflexivity].
    + intros got H. injection H as <-. reflexivity.
  - rewrite bool_decide_eq_false_2 by exact Hne. exec.
    destruct (collectFailures _). exec. split.
    + split; [intros H; discriminate H |].
      intros [got H]. injection H as _ H. congruence.
    + intros got H. injection H as _ H. congruence.
Qed.


(** X12. Without [public.crt] on the disk renewCerts returns the
    not-exist error of that read and calls nothing else.  Without
    [certs.json] on the disk it always returns an error and never requests
    a renewal, although it may have generated a key and built a client by
    the time it finds out. *)
Theorem renewCerts_missing_files (w : World) (certsDir email : string) :
  let crt := filepath.Join certsDir "public.crt" in
  let meta := filepath.Join certsDir "certs.json" in
  let r := run (renewCerts acmeServer certsDir email) w in
  (fs w !! crt = None ->
   r = ((CertificateResource_zero, Some (errNotExist crt)), w,
        [Called (ioutil_ReadFile crt) (EmptyString, Some (errNotExist crt))]))
  /\ (fs w !! meta = None ->
      snd (result r) <> None /\ renewalsRequested (trace r) = []).
Proof.
  cbv zeta. split.
  - intros Hmissing. unfold renewCerts, loadCert. exec.
    assert (Hread : readFile w (filepath.Join certsDir "public.crt")
                    = (EmptyString, Some (errNotExist (filepath.Join certsDir "public.crt")))).
    { unfold readFile. now rewrite Hmissing. }
    rewrite Hread. reflexivity.
  - intros Hmissing. unfold result, trace.
    assert (Hread : forall b, readFile w (filepath.Join certsDir "certs.json") <> (b, None)).
    { intros b. unfold readFile. rewrite Hmissing. discriminate. }
    renewCerts_runs;
      try (simpl; split; [discriminate | reflexivity]);
      exfalso; eapply Hread; reflexivity.
Qed.

End Orchestrators.

Lemma genCerts_call_order_witness :
  let r := run (genCerts letsEncrypt "admin@example.com" "example.com" ["www"; "api"])
               (issuanceWorld ∅) in
  map callName (trace r) = take 7 genCertsOrder
  /\ Forall (fun c => testedError c = None) (removelast (trace r)).
Proof.
  pose proof (genCerts_call_order letsEncrypt (issuanceWorld ∅) "admin@example.com"
                "example.com" ["www"; "api"]) as H.
  cbv zeta in H. destruct H as (_ & _ & Hnone & H).
  split; [| exact Hnone].
  assert (H' : exists cert failures,
             [(sampleCert, (∅ : gmap string error))] = [(cert, failures)]
             /\ map callName
                  (trace (run (genCerts letsEncrypt "admin@example.com" "example.com"
                                 ["www"; "api"]) (issuanceWorld ∅)))
                = if decide (failures = ∅) then take 7 genCertsOrder else genCertsOrder)
    by exact H.
  destruct H' as (cert & failures & Hc & Hn).
  injection Hc as <- <-. rewrite decide_True in Hn by reflexivity. exact Hn.
Defined.

Lemma renewCerts_call_order_witness :
  let r := run (renewCerts letsEncrypt "/etc/concert" "admin@example.com") notDueWorld in
  map callName (trace r) = take 3 renewCertsOrder
  /\ result r = (CertificateResource_zero, Some (notYetDue 100)).
Proof.
  pose proof (renewCerts_call_order letsEncrypt notDueWorld "/etc/concert"
                "admin@example.com") as H.
  cbv zeta in H. destruct H as (_ & _ & _ & H).
  vm_compute in H. vm_compute. exact H.
Defined.

Lemma error_means_zero_resource_witness :
  fst (result (run (renewCerts letsEncrypt "/etc/concert" "admin@example.com") notDueWorld))
  = CertificateResource_zero.
Proof.
  destruct (error_means_zero_resource letsEncrypt notDueWorld "admin@example.com"
              "example.com" "/etc/concert" []) as (_ & H & _).
  apply H. vm_compute. discriminate.
Defined.


Lemma renewCerts_missing_files_witness :
  result (run (renewCerts letsEncrypt "/etc/concert" "admin@example.com") (issuanceWorld ∅))
  = (CertificateResource_zero, Some (errNotExist "/etc/concert/public.crt")).
Proof.
  destruct (renewCerts_missing_files letsEncrypt (issuanceWorld ∅) "/etc/concert"
              "admin@example.com") as [H _].
  rewrite (H eq_refl). reflexivity.
Defined.

Lemma genCerts_success_witness :
  result (run (genCerts letsEncrypt "admin@example.com" "example.com" ["www"; "api"])
              (issuanceWorld ∅))
  = (sampleCert, None).
Proof.
  destruct (genCerts_success letsEncrypt (issuanceWorld ∅) "admin@example.com"
              "example.com" ["www"; "api"]) as [_ H].
  apply H. reflexivity.
Defined.

(** ** saveCerts, continued *)

Section StoreWrites.

(** When saveCerts succeeds the disk it leaves is the disk it found with
    the three files put in. *)
Lemma saveCerts_final_disk (w : World) (certsDir : string) (cert : CertificateResource) :
  let crt := filepath.Join certsDir "public.crt" in
  let keyf := filepath.Join certsDir "private.key" in
  let meta := filepath.Join certsDir "certs.json" in
  let json := fst (answer w _ (json_MarshalIndent cert "" tab)) in
  let r := run (saveCerts certsDir cert) w in
  result r = None ->
  answer (final r) = answer w
  /\ fs (final r) =
       <[meta := storedFile w meta json]>
         (<[keyf := storedFile w keyf (PrivateKey cert)]>
            (<[crt := storedFile w crt (Certificate cert)]> (fs w))).
Proof.
  cbv zeta. unfold saveCerts, result, final, tab. exec.
  assert (Hck : filepath.Join certsDir "public.crt" <> filepath.Join certsDir "private.key")
    by (apply Join_ne; discriminate).
  assert (Hcm : filepath.Join certsDir "public.crt" <> filepath.Join certsDir "certs.json")
    by (apply Join_ne; discriminate).
  assert (Hkm : filepath.Join certsDir "private.key" <> filepath.Join certsDir "certs.json")
    by (apply Join_ne; discriminate).
  pose proof (writeFile_effect w (filepath.Join certsDir "public.crt") (Certificate cert) 384)
    as (A1 & B1 & U1 & C1 & D1).
  destruct (writeFile w (filepath.Join certsDir "public.crt") (Certificate cert) 384)
    as [r1 w1]. simpl in A1, B1, U1, C1, D1. exec.
  destruct r1 as [e1 |]; exec; [discriminate |]. specialize (C1 eq_refl).
  pose proof (writeFile_effect w1 (filepath.Join certsDir "private.key") (PrivateKey cert) 384)
    as (A2 & B2 & U2 & C2 & D2).
  destruct (writeFile w1 (filepath.Join certsDir "private.key") (PrivateKey cert) 384)
    as [r2 w2]. simpl in A2, B2, U2, C2, D2. exec.
  destruct r2 as [e2 |]; exec; [discriminate |]. specialize (C2 eq_refl).
  rewrite B2, B1.
  destruct (answer w _ (json_MarshalIndent cert "" (String (ascii_of_nat 9) "")))
    as [jsonBytes [e3 |]] eqn:Hjson; exec; [discriminate |].
  pose proof (writeFile_effect w2 (filepath.Join certsDir "certs.json") jsonBytes 384)
    as (A3 & B3 & U3 & C3 & D3).
  destruct (writeFile w2 (filepath.Join certsDir "certs.json") jsonBytes 384)
    as [r3 w3]. simpl in A3, B3, U3, C3, D3. exec.
  destruct r3 as [e4 |]; exec; [discriminate |]. specialize (C3 eq_refl).
  intros _. split; [now rewrite B3, B2, B1 |].
  rewrite C3, C2, C1. unfold storedFile.
  rewrite U2, U1.
  rewrite !lookup_insert_ne by congruence.
  reflexivity.
Qed.

(** X13. saveCerts touches no file but its three, whatever happens.  A
    failure ends the call before the next file: when the write of
    [public.crt] fails, [private.key] and [certs.json] are as they were;
    when the write of [private.key] or the serialization fails,
    [certs.json] is as it was. *)
Theorem saveCerts_frame (w : World) (certsDir : string) (cert : CertificateResource) :
  let crt := filepath.Join certsDir "public.crt" in
  let keyf := filepath.Join certsDir "private.key" in
  let meta := filepath.Join certsDir "certs.json" in
  let r := run (saveCerts certsDir cert) w in
  (forall name, name <> crt -> name <> keyf -> name <> meta ->
     fs (final r) !! name = fs w !! name)
  /\ (answer w _ (ioutil_WriteFile crt (Certificate cert) 384) <> None ->
      fs (final r) !! keyf = fs w !! keyf /\ fs (final r) !! meta = fs w !! meta)
  /\ (answer w _ (ioutil_WriteFile keyf (PrivateKey cert) 384) <> None
      \/ snd (answer w _ (json_MarshalIndent cert "" tab)) <> None ->
      fs (final r) !! meta = fs w !! meta).
Proof.
  cbv zeta. unfold saveCerts, result, final, tab. exec.
  assert (Hck : filepath.Join certsDir "public.crt" <> filepath.Join certsDir "private.key")
    by (apply Join_ne; discriminate).
  assert (Hcm : filepath.Join certsDir "public.crt" <> filepath.Join certsDir "certs.json")
    by (apply Join_ne; discriminate).
  assert (Hkm : filepath.Join certsDir "private.key" <> filepath.Join certsDir "certs.json")
    by (apply Join_ne; discriminate).
  pose proof (writeFile_effect w (filepath.Join certsDir "public.crt") (Certificate cert) 384)
    as (A1 & B1 & _ & _ & D1).
  destruct (writeFile w (filepath.Join certsDir "public.crt") (Certificate cert) 384)
    as [r1 w1]. simpl in A1, B1, D1. rewrite <- A1. exec.
  destruct r1 as [e1 |]; exec.
  { split; [intros name H1 H2 H3; now apply D1 |].
    split; [intros _; split; apply D1; congruence |].
    intros _. apply D1. congruence. }
  pose proof (writeFile_effect w1 (filepath.Join certsDir "private.key") (PrivateKey cert) 384)
    as (A2 & B2 & _ & _ & D2).
  destruct (writeFile w1 (filepath.Join certsDir "private.key") (PrivateKey cert) 384)
    as [r2 w2]. simpl in A2, B2, D2. rewrite B1 in A2. rewrite <- A2. exec.
  destruct r2 as [e2 |]; exec.
  { split; [intros name H1 H2 H3; rewrite D2, D1; congruence |].
    split; [intros H; congruence |].
    intros _. rewrite D2, D1; congruence. }
  rewrite B2, B1.
  destruct (answer w _ (json_MarshalIndent cert "" (String (ascii_of_nat 9) "")))
    as [jsonBytes [e3 |]] eqn:Hjson; exec.
  { split; [intros name H1 H2 H3; rewrite D2, D1; congruence |].
    split; [intros H; congruence |].
    intros _. rewrite D2, D1; congruence. }
  pose proof (writeFile_effect w2 (filepath.Join certsDir "certs.json") jsonBytes 384)
    as (A3 & B3 & _ & _ & D3).
  destruct (writeFile w2 (filepath.Join certsDir "certs.json") jsonBytes 384)
    as [r3 w3]. simpl in A3, B3, D3. exec.
  assert (Hothers : forall name,
            name <> filepath.Join certsDir "public.crt" ->
            name <> filepath.Join certsDir "private.key" ->
            name <> filepath.Join certsDir "certs.json" ->
            fs w3 !! name = fs w !! name).
  { intros name H1 H2 H3. rewrite D3, D2, D1; congruence. }
  destruct r3 as [e4 |]; exec;
    (split; [exact Hothers |]; split; [intros H; congruence |];
     intros [H | H]; congruence).
Qed.

(** X14. After a saveCerts that returned no error, in the world it
    leaves: loadCert returns the certificate bytes of the resource saved,
    isCertAvailable answers true, and loadCertMeta hands to
    [json.Unmarshal] the bytes that [json.MarshalIndent] produced and
    returns its outcome; each provided the read or the stat does not
    fail. *)
Theorem saveCerts_then_load (w : World) (certsDir : string) (cert : CertificateResource) :
  let crt := filepath.Join certsDir "public.crt" in
  let keyf := filepath.Join certsDir "private.key" in
  let meta := filepath.Join certsDir "certs.json" in
  let json := fst (answer w _ (json_MarshalIndent cert "" tab)) in
  let saved := final (run (saveCerts certsDir cert) w) in
  result (run (saveCerts certsDir cert) w) = None ->
  (snd (answer w _ (ioutil_ReadFile crt)) = None ->
   result (run (loadCert certsDir) saved) = (Certificate cert, None))
  /\ (answer w _ (os_Stat crt) = None -> answer w _ (os_Stat keyf) = None ->
      result (run (isCertAvailable certsDir) saved) = true)
  /\ (snd (answer w _ (ioutil_ReadFile meta)) = None ->
      trace (run (loadCertMeta certsDir) saved)
      = [Called (ioutil_ReadFile meta) (json, None);
         Called (json_Unmarshal json) (answer w _ (json_Unmarshal json))]
      /\ result (run (loadCertMeta certsDir) saved)
         = match snd (answer w _ (json_Unmarshal json)) with
           | Some e => (CertificateResource_zero, Some e)
           | None => (fst (answer w _ (json_Unmarshal json)), None)
           end).
Proof.
  intros crt keyf meta json saved Hok.
  destruct (saveCerts_final_disk w certsDir cert Hok) as [Hanswer Hdisk].
  fold saved in Hanswer, Hdisk. clearbody saved. fold json in Hdisk. clearbody json.
  subst crt keyf meta.
  set (crt := filepath.Join certsDir "public.crt") in *.
  set (keyf := filepath.Join certsDir "private.key") in *.
  set (meta := filepath.Join certsDir "certs.json") in *.
  assert (Hck : crt <> keyf) by (apply Join_ne; discriminate).
  assert (Hcm : crt <> meta) by (apply Join_ne; discriminate).
  assert (Hkm : keyf <> meta) by (apply Join_ne; discriminate).
  assert (Hcrt : fs saved !! crt = Some (storedFile w crt (Certificate cert))).
  { rewrite Hdisk. rewrite !lookup_insert_ne by congruence. apply lookup_insert_eq. }
  assert (Hkey : fs saved !! keyf = Some (storedFile w keyf (PrivateKey cert))).
  { rewrite Hdisk. rewrite lookup_insert_ne by congruence. apply lookup_insert_eq. }
  assert (Hmeta : fs saved !! meta = Some (storedFile w meta json)).
  { rewrite Hdisk. apply lookup_insert_eq. }
  clear Hdisk. subst crt keyf meta. split; [| split].
  - intros Hread. unfold loadCert, result. exec.
    unfold readFile. rewrite Hcrt, Hanswer, Hread. reflexivity.
  - intros Hs1 Hs2. unfold isCertAvailable, result. exec.
    unfold stat. rewrite Hcrt, Hkey, Hanswer, Hs1, Hs2. reflexivity.
  - intros Hread. unfold loadCertMeta, result, trace. exec.
    unfold readFile. rewrite Hmeta, Hanswer, Hread. exec. rewrite Hanswer.
    destruct (answer w _ (json_Unmarshal json)) as [certRes [e |]]; exec; split; reflexivity.
Qed.

(** X15. When saveCerts returns no error, each of its three files that
    was not on the disk before has the mode 0600 less the mask, in which
    the group and the others have no permission; a file that was on the
    disk keeps the mode it had. *)
Theorem saveCerts_modes (w : World) (certsDir : string) (cert : CertificateResource)
    (name : string) :
  let r := run (saveCerts certsDir cert) w in
  result r = None ->
  In name [filepath.Join certsDir "public.crt"; filepath.Join certsDir "private.key";
           filepath.Join certsDir "certs.json"] ->
  (forall f, fs w !! name = Some f -> mode <$> fs (final r) !! name = Some (mode f))
  /\ (fs w !! name = None ->
      exists m, mode <$> fs (final r) !! name = Some m
                /\ m = Z.land 384 (Z.lnot (umask w))
                /\ Z.land m 63 = 0).
Proof.
  intros r Hok Hin. unfold r in *. clear r.
  destruct (saveCerts_final_disk w certsDir cert Hok) as [_ Hdisk].
  assert (Hck : filepath.Join certsDir "public.crt" <> filepath.Join certsDir "private.key")
    by (apply Join_ne; discriminate).
  assert (Hcm : filepath.Join certsDir "public.crt" <> filepath.Join certsDir "certs.json")
    by (apply Join_ne; discriminate).
  assert (Hkm : filepath.Join certsDir "private.key" <> filepath.Join certsDir "certs.json")
    by (apply Join_ne; discriminate).
  assert (Hstored : exists data, fs (final (run (saveCerts certsDir cert) w)) !! name
                                 = Some (storedFile w name data)).
  { rewrite Hdisk. destruct Hin as [<- | [<- | [<- | []]]].
    - eexists. rewrite !lookup_insert_ne by congruence. apply lookup_insert_eq.
    - eexists. rewrite lookup_insert_ne by congruence. apply lookup_insert_eq.
    - eexists. apply lookup_insert_eq. }
  destruct Hstored as [data Hstored]. rewrite Hstored. unfold storedFile. simpl. split.
  - intros f Hf. now rewrite Hf.
  - intros Hnone. rewrite Hnone. eexists. split; [reflexivity |]. split; [reflexivity |].
    rewrite <- Z.land_assoc, (Z.land_comm _ 63), Z.land_assoc. reflexivity.
Qed.

End StoreWrites.

Lemma saveCerts_frame_witness :
  let r := run (saveCerts "/etc/concert" sampleCert) readOnlyWorld in
  fs (final r) !! "/etc/concert/private.key" = fs readOnlyWorld !! "/etc/concert/private.key"
  /\ fs (final r) !! "/etc/concert/certs.json" = fs readOnlyWorld !! "/etc/concert/certs.json".
Proof.
  destruct (saveCerts_frame readOnlyWorld "/etc/concert" sampleCert) as (_ & H & _).
  apply H. discriminate.
Defined.

Lemma saveCerts_then_load_witness :
  let saved := final (run (saveCerts "/etc/concert" sampleCert) dueWorld) in
  result (run (loadCert "/etc/concert") saved) = ("CERT"%string, None)
  /\ result (run (isCertAvailable "/etc/concert") saved) = true
  /\ result (run (loadCertMeta "/etc/concert") saved) = (sampleMeta, None).
Proof.
  destruct (saveCerts_then_load dueWorld "/etc/concert" sampleCert eq_refl) as (H1 & H2 & H3).
  split; [exact (H1 eq_refl) |]. split; [exact (H2 eq_refl eq_refl) |].
  exact (proj2 (H3 eq_refl)).
Defined.

Lemma saveCerts_modes_witness :
  exists m,
    mode <$> fs (final (run (saveCerts "/srv/certs" sampleCert) (issuanceWorld ∅)))
             !! "/srv/certs/private.key" = Some m
    /\ m = Z.land 384 (Z.lnot 18)
    /\ Z.land m 63 = 0.
Proof.
  destruct (saveCerts_modes (issuanceWorld ∅) "/srv/certs" sampleCert
              "/srv/certs/private.key" eq_refl (or_intror (or_introl eq_refl))) as [_ H].
  exact (H eq_refl).
Defined.

(** ** The domain validator, continued *)

Section WhiteSpace.

Ltac space_facts :=
  unfold strings.isSpace1, strings.isSpace2, strings.isSpace3, visible in *; cbv zeta in *;
  repeat match goal with H : _ = true |- _ => revert H end;
  repeat (progress rewrite ?andb_true_iff, ?orb_true_iff, ?andb_false_iff, ?orb_false_iff,
            ?Nat.leb_le, ?Nat.eqb_eq, ?Nat.eqb_neq, ?Nat.leb_gt);
  lia.

Lemma isSpace1_ascii (a : ascii) : strings.isSpace1 a = true -> (nat_of_ascii a < 128)%nat.
Proof. intros H. space_facts. Qed.

Lemma visible_ascii (a : ascii) :
  visible a = true -> strings.isSpace1 a = false /\ (nat_of_ascii a < 128)%nat.
Proof.
  intros H. split; [| space_facts].
  apply not_true_is_false. intros H1. space_facts.
Qed.

Lemma isSpace2_first (a b : ascii) : (nat_of_ascii a < 128)%nat -> strings.isSpace2 a b = false.
Proof. intros H. space_facts. Qed.

Lemma isSpace2_second (a b : ascii) : (nat_of_ascii b < 128)%nat -> strings.isSpace2 a b = false.
Proof. intros H. space_facts. Qed.

Lemma isSpace3_first (a b c : ascii) :
  (nat_of_ascii a < 128)%nat -> strings.isSpace3 a b c = false.
Proof. intros H. space_facts. Qed.

Lemma isSpace3_second (a b c : ascii) :
  (nat_of_ascii b < 128)%nat -> strings.isSpace3 a b c = false.
Proof. intros H. space_facts. Qed.

Lemma isSpace3_third (a b c : ascii) :
  (nat_of_ascii c < 128)%nat -> strings.isSpace3 a b c = false.
Proof. intros H. space_facts. Qed.

Lemma blank_append (s t : string) : blank (s +:+ t) = blank s && blank t.
Proof.
  induction s as [|a s IH]; simpl; [reflexivity |].
  now rewrite IH, andb_assoc.
Qed.

Lemma blank_rev (s : string) : blank (strings.rev s) = blank s.
Proof.
  induction s as [|a s IH]; [reflexivity |].
  rewrite rev_cons, blank_append, IH. simpl. rewrite andb_true_r. apply andb_comm.
Qed.

Lemma TrimLeftSpace_blank (p x : string) :
  blank p = true -> strings.TrimLeftSpace (p +:+ x) = strings.TrimLeftSpace x.
Proof.
  induction p as [|a p IH]; intros H; [reflexivity |].
  simpl in H. apply andb_true_iff in H as [Ha Hp].
  cbn [append strings.TrimLeftSpace]. rewrite Ha. now apply IH.
Qed.

Lemma TrimLeftSpaceRev_blank (p x : string) :
  blank p = true -> strings.TrimLeftSpaceRev (p +:+ x) = strings.TrimLeftSpaceRev x.
Proof.
  induction p as [|a p IH]; intros H; [reflexivity |].
  simpl in H. apply andb_true_iff in H as [Ha Hp].
  cbn [append strings.TrimLeftSpaceRev]. rewrite Ha. now apply IH.
Qed.

Lemma TrimRightSpace_blank (y q : string) :
  blank q = true -> strings.TrimRightSpace (y +:+ q) = strings.TrimRightSpace y.
Proof.
  intros H. unfold strings.TrimRightSpace.
  rewrite rev_append, TrimLeftSpaceRev_blank by now rewrite blank_rev.
  reflexivity.
Qed.

Lemma TrimLeftSpace_all_blank (q : string) : blank q = true -> strings.TrimLeftSpace q = "".
Proof.
  intros H. rewrite <- (append_nil_r q). now rewrite TrimLeftSpace_blank.
Qed.

(** White space after a string does not change what is left of it once
    both ends are trimmed. *)
Lemma TrimSpace_blank_r (h q : string) :
  blank q = true -> strings.TrimSpace (h +:+ q) = strings.TrimSpace h.
Proof.
  intros Hq. unfold strings.TrimSpace.
  assert (Hkept : forall y, strings.TrimRightSpace (y +:+ q) = strings.TrimRightSpace y)
    by (intros y; now apply TrimRightSpace_blank).
  assert (Hq1 : forall c q', q = String c q' -> (nat_of_ascii c < 128)%nat).
  { intros c q' ->. simpl in Hq. apply andb_true_iff in Hq as [Hc _].
    now apply isSpace1_ascii. }
  assert (Hq2 : forall c d q', q = String c (String d q') -> (nat_of_ascii d < 128)%nat).
  { intros c d q' ->. simpl in Hq. apply andb_true_iff in Hq as [_ Hq].
    apply andb_true_iff in Hq as [Hd _]. now apply isSpace1_ascii. }
  assert (H : forall n h, (String.length h <= n)%nat ->
            strings.TrimRightSpace (strings.TrimLeftSpace (h +:+ q))
            = strings.TrimRightSpace (strings.TrimLeftSpace h)).
  { induction n as [|n IH]; intros [|a s1] Hn; simpl in Hn; try lia;
      try (cbn [append]; now rewrite TrimLeftSpace_all_blank).
    cbn [append strings.TrimLeftSpace].
    destruct (strings.isSpace1 a) eqn:Ha; [apply IH; lia |].
    destruct s1 as [|b s2].
    - cbn [append]. destruct q as [|c [|d q']] eqn:Eq; [reflexivity | |].
      + rewrite isSpace2_second by (eapply Hq1; reflexivity).
        exact (Hkept (String a "")).
      + rewrite isSpace2_second by (eapply Hq1; reflexivity).
        rewrite isSpace3_second by (eapply Hq1; reflexivity).
        exact (Hkept (String a "")).
    - cbn [append].
      destruct (strings.isSpace2 a b) eqn:Hab; [apply IH; simpl in Hn; lia |].
      destruct s2 as [|c s3].
      + cbn [append]. destruct q as [|d q'] eqn:Eq; [reflexivity |].
        rewrite isSpace3_third by (eapply Hq1; reflexivity).
        exact (Hkept (String a (String b ""))).
      + cbn [append].
        destruct (strings.isSpace3 a b c) eqn:Habc; [apply IH; simpl in Hn; lia |].
        exact (Hkept (String a (String b (String c s3)))). }
  now apply (H (String.length h)).
Qed.

Lemma TrimSpace_blank (p h q : string) :
  blank p = true -> blank q = true ->
  strings.TrimSpace (p +:+ h +:+ q) = strings.TrimSpace h.
Proof.
  intros Hp Hq. rewrite <- (TrimSpace_blank_r h q Hq).
  unfold strings.TrimSpace. now rewrite TrimLeftSpace_blank.
Qed.

(** A string between two visible ASCII bytes has nothing to trim. *)
Lemma TrimSpace_visible (host : string) (a z : ascii) :
  startsWith a host -> endsWith z host -> visible a = true -> visible z = true ->
  strings.TrimSpace host = host.
Proof.
  intros [r Hr] [l Hl] Ha Hz.
  apply visible_ascii in Ha as [Ha1 Ha], Hz as [Hz1 Hz].
  unfold strings.TrimSpace.
  assert (Hleft : strings.TrimLeftSpace host = host).
  { rewrite Hr. cbn [strings.TrimLeftSpace]. rewrite Ha1.
    destruct r as [|b [|c r]]; rewrite ?isSpace2_first, ?isSpace3_first by assumption;
      reflexivity. }
  rewrite Hleft, Hl. unfold strings.TrimRightSpace.
  assert (Hright : forall x, strings.TrimLeftSpaceRev (String z x) = String z x).
  { intros x. cbn [strings.TrimLeftSpaceRev]. rewrite Hz1.
    destruct x as [|b [|c x]]; rewrite ?isSpace2_second, ?isSpace3_third by assumption;
      reflexivity. }
  rewrite rev_append. change (strings.rev (String z "")) with (String z "").
  cbn [append]. rewrite Hright, rev_cons, rev_involutive. reflexivity.
Qed.

(** X16. White space around a host does not change the verdict of
    isValidDomain: tabs, line feeds, carriage returns and spaces, any
    number of them, before and after. *)
Theorem isValidDomain_padding (pad1 host pad2 : string) :
  blank pad1 = true -> blank pad2 = true ->
  isValidDomain (pad1 +:+ host +:+ pad2) = isValidDomain host.
Proof.
  intros H1 H2. unfold isValidDomain. cbv zeta.
  now rewrite TrimSpace_blank.
Qed.

(** X17. A host that starts and ends with a visible ASCII byte is judged
    as it stands, nothing being trimmed: it is accepted exactly when it has
    at most 255 bytes, neither end is a hyphen, an underscore or a dot, and
    no byte is of the forbidden set.  Nothing else is looked at between the
    two ends: empty labels, blanks, control bytes and bytes above 127 pass. *)
Theorem isValidDomain_untrimmed (host : string) (a z : ascii) :
  startsWith a host -> endsWith z host -> visible a = true -> visible z = true ->
  isValidDomain host
  = Some (negb ((255 <? len host)
                || existsb (fun c => Ascii.eqb a c || Ascii.eqb z c) ["-"; "_"; "."]%char
                || strings.ContainsAny host forbiddenChars)).
Proof.
  intros Hs He Ha Hz.
  pose proof (TrimSpace_visible host a z Hs He Ha Hz) as Htrim.
  destruct (isValidDomain_cases host) as [[Hr Hv] | [Hr Hv]];
    cbv zeta in Hr; rewrite Htrim in Hr; rewrite Hv; f_equal; symmetry.
  - apply negb_false_iff. rewrite !orb_true_iff.
    destruct Hr as [-> | [Hlen | [(c & Hc & Hedge) | (c & Hc & Hocc)]]].
    + destruct Hs as [r Hr]. discriminate Hr.
    + left; left. apply Z.ltb_lt. exact Hlen.
    + left; right. apply existsb_exists. exists c. split; [exact Hc |].
      apply orb_true_iff. destruct Hedge as [H | H].
      * left. apply Ascii.eqb_eq. destruct Hs as [r ->]. now apply startsWith_cons in H.
      * right. apply Ascii.eqb_eq. destruct He as [l ->]. now apply endsWith_snoc in H.
    + right. apply ContainsAny_spec. now exists c.
  - apply negb_true_iff. apply not_true_is_false. rewrite !orb_true_iff.
    intros [[Hlen | Hedge] | Hany]; apply Hr.
    + right; left. apply Z.ltb_lt. exact Hlen.
    + apply existsb_exists in Hedge as (c & Hc & Hedge).
      apply orb_true_iff in Hedge. apply (refused_edge host c Hc).
      destruct Hedge as [H | H]; apply Ascii.eqb_eq in H; subst c; [now left | now right].
    + right; right; right. apply ContainsAny_spec in Hany as (c & Hc & Hocc). now exists c.
Qed.

End WhiteSpace.

Lemma isValidDomain_padding_witness :
  isValidDomain (tab +:+ " " +:+ "example.com" +:+ " " +:+ tab) = isValidDomain "example.com".
Proof.
  apply (isValidDomain_padding (tab +:+ " ") "example.com" (" " +:+ tab)); reflexivity.
Defined.

Lemma isValidDomain_untrimmed_witness :
  isValidDomain "a..b c,d" = Some true /\ isValidDomain "example.com-" = Some false.
Proof.
  split.
  - rewrite (isValidDomain_untrimmed "a..b c,d" "a" "d");
      [reflexivity | now exists "..b c,d"%string | now exists "a..b c,"%string
      | reflexivity | reflexivity].
  - rewrite (isValidDomain_untrimmed "example.com-" "e" "-");
      [reflexivity | now exists "xample.com-"%string | now exists "example.com"%string
      | reflexivity | reflexivity].
Defined.

(** ** Sub-domains, continued *)

Section SubDomainNames.

Lemma countByte_append (s t : string) (c : ascii) :
  countByte (s +:+ t) c = (countByte s c + countByte t c)%nat.
Proof.
  induction s as [|a s IH]; simpl; [reflexivity |]. rewrite IH. lia.
Qed.

Lemma countByte_occurs (s : string) (c : ascii) :
  (0 < countByte s c)%nat <-> occursIn c s.
Proof.
  induction s as [|a s IH]; simpl.
  - pose proof (occursIn_nil c). split; [lia | tauto].
  - rewrite occursIn_cons, <- IH.
    destruct (Ascii.eqb_spec a c); split; intros; try tauto; lia.
Qed.

Lemma isSubDomain_count (domain : string) :
  isSubDomain domain = true <-> (2 <= countByte domain ".")%nat.
Proof.
  unfold isSubDomain, strings.Split. cbv zeta. rewrite genSplit_dot_length.
  rewrite Z.gtb_lt. lia.
Qed.

(** X18. The name that genCerts builds for a sub-domain, the sub-domain
    joined to the primary with a dot, is a sub-domain by isSubDomain's own
    test exactly when the primary or the sub-domain holds a dot: always for
    a primary such as example.com, and for a dot-less primary only when the
    sub-domain given has a dot.  A name built on a primary that is itself a
    sub-domain would be one too. *)
Theorem isSubDomain_joined (subDomain domain : string) :
  (isSubDomain (subDomain +:+ "." +:+ domain) = true
   <-> occursIn "." subDomain \/ occursIn "." domain)
  /\ (isSubDomain domain = true -> isSubDomain (subDomain +:+ "." +:+ domain) = true).
Proof.
  assert (Hcount : countByte (subDomain +:+ "." +:+ domain) "."
                   = S (countByte subDomain "." + countByte domain ".")).
  { rewrite !countByte_append. simpl. lia. }
  rewrite !isSubDomain_count, Hcount, <- !countByte_occurs. lia.
Qed.

End SubDomainNames.

Lemma isSubDomain_joined_witness :
  isSubDomain ("www" +:+ "." +:+ "example.com") = true.
Proof.
  destruct (isSubDomain_joined "www" "example.com") as [[_ H] _].
  apply H. right. now exists "example"%string, "com"%string.
Defined.
